(** * flux_reconcile: the event monitor and readiness poller

    A shallow embedding of [pkg/events/monitor.go]: the change detector
    [checkEvents], the readiness check [checkResourceReady] and the
    polling loop [WaitForReady], with the properties the specification
    states about them; then the watch loop [Watch], the set-up
    [NewMonitor] and the command line [main] that uses them. *)

From Stdlib Require Import Ascii.
From stdpp Require Import base strings list gmap.

Set Warnings "-register-all".

(** ** Unstructured documents

    A decoded JSON document, as [map[string]interface{}] holds it: the
    dynamic client returns [obj.Object], a map from keys to values that
    are themselves maps, slices, strings, numbers, booleans or nil.
    The accessors are those of the package
    [k8s.io/apimachinery/pkg/apis/meta/v1/unstructured], which the
    monitor imports; they are written here as that library defines
    them. *)

Module Unstructured.

Inductive value : Type :=
| VNil
| VBool (b : bool)
| VNumber (n : Z)
| VString (s : string)
| VSlice (l : list value)
| VMap (m : gmap string value).

Abbreviation object := (gmap string value).

(** The accessors fail with an error when a value has an unexpected
    dynamic type; the error names the path that was accessed.  The text
    built with [%v] and [%T] is not kept. *)
Inductive accessor_error : Type :=
| NotAMap (path : string)
| NotASlice (path : string)
| NotAString (path : string).

(** [NestedFieldNoCopy(obj, field)], for the single-field paths the
    monitor uses: [(val, found, err)]. *)
Definition NestedFieldNoCopy (obj : object) (field : string)
  : value * bool * option accessor_error :=
  match obj !! field with
  | None => (VNil, false, None)
  | Some val => (val, true, None)
  end.

(** [NestedMap(obj, field)]: the value under [field] when it is a map.
    The deep copy the library makes is the identity on values. *)
Definition NestedMap (obj : object) (field : string)
  : object * bool * option accessor_error :=
  match NestedFieldNoCopy obj field with
  | (val, true, None) =>
      match val with
      | VMap m => (m, true, None)
      | _ => (∅, false, Some (NotAMap field))
      end
  | (_, found, err) => (∅, found, err)
  end.

(** [NestedSlice(obj, field)]. *)
Definition NestedSlice (obj : object) (field : string)
  : list value * bool * option accessor_error :=
  match NestedFieldNoCopy obj field with
  | (val, true, None) =>
      match val with
      | VSlice l => (l, true, None)
      | _ => ([], false, Some (NotASlice field))
      end
  | (_, found, err) => ([], found, err)
  end.

(** [NestedString(obj, field)]: the empty string when the field is
    absent or is not a string. *)
Definition NestedString (obj : object) (field : string)
  : string * bool * option accessor_error :=
  match NestedFieldNoCopy obj field with
  | (val, true, None) =>
      match val with
      | VString s => (s, true, None)
      | _ => ("", false, Some (NotAString field))
      end
  | (_, found, err) => ("", found, err)
  end.

End Unstructured.

(** ** Errors

    Every [error] value the monitor can return or meet, with the text
    its [Error()] method gives. *)

Inductive error : Type :=
| ErrClient (msg : string)
    (* whatever the API client reports *)
| ErrAccessor (e : Unstructured.accessor_error)
    (* a typed accessor met a value of another type *)
| ErrUnsupportedKind (kind : string)
    (* fmt.Errorf("unsupported resource kind: %s", m.kind) *)
| ErrTimeout (kind : string)
    (* fmt.Errorf("timeout waiting for %s reconciliation", m.kind) *)
| Canceled
    (* context.Canceled *)
| DeadlineExceeded.
    (* context.DeadlineExceeded *)

Definition accessor_path (e : Unstructured.accessor_error) : string :=
  match e with
  | Unstructured.NotAMap p | Unstructured.NotASlice p
  | Unstructured.NotAString p => p
  end.

Definition Error (e : error) : string :=
  match e with
  | ErrClient msg => msg
  | ErrAccessor a => "." +:+ accessor_path a +:+ " accessor error"
  | ErrUnsupportedKind kind => "unsupported resource kind: " +:+ kind
  | ErrTimeout kind => "timeout waiting for " +:+ kind +:+ " reconciliation"
  | Canceled => "context canceled"
  | DeadlineExceeded => "context deadline exceeded"
  end.

(** ** The monitor *)

Record GroupVersionResource : Type := {
  Group : string;
  Version : string;
  Resource : string
}.

(** The fields of [Monitor] that hold data.  The two clients are the
    outside world: what they answer is an input of each operation. *)
Record Monitor : Type := {
  kind : string;
  name : string;
  namespace : string;
  lastHash : string;
  ready : bool
}.

Definition set_lastHash (m : Monitor) (hash : string) : Monitor :=
  {| kind := kind m; name := name m; namespace := namespace m;
     lastHash := hash; ready := ready m |}.

(** ** Events *)

(** The fields of [corev1.Event] the monitor reads, and two of those it
    ignores. *)
Record Event : Type := {
  Reason : string;
  Message : string;
  Type_ : string;
  Count : Z;
  LastTimestamp : Z
}.

(** The event types of [k8s.io/api/core/v1]. *)
Definition EventTypeNormal : string := "Normal".
Definition EventTypeWarning : string := "Warning".

(** What [clientset.CoreV1().Events(ns).List] answers. *)
Inductive list_result : Type :=
| ListOk (Items : list Event)
| ListErr (err : error).

(** One call of [output.PrintEvent(reason, message, isWarning)]. *)
Record notification : Type := {
  n_reason : string;
  n_message : string;
  n_isWarning : bool
}.

(** [fmt.Sprintf("%s:%s:%s", evt.Reason, evt.Type, evt.Message)] *)
Definition eventKey (evt : Event) : string :=
  Reason evt +:+ ":" +:+ Type_ evt +:+ ":" +:+ Message evt.

(** The first loop of [checkEvents]:
    [for i := len-1; i >= 0 && i >= len-3; i-- { hash += ... }].
    The counter [n] is [i+1], so that [n = 0] is [i = -1]; the bound
    [len-3] may be negative and is computed in [Z]. *)
Fixpoint hashLoop (Items : list Event) (n : nat) (hash : string) : string :=
  match n with
  | O => hash
  | S i =>
      if (Z.of_nat i >=? Z.of_nat (length Items) - 3)%Z then
        match Items !! i with
        | Some evt => hashLoop Items i (hash +:+ eventKey evt)
        | None => hash (* index out of range: not reached from [len] *)
        end
      else hash
  end.

Definition eventsHash (Items : list Event) : string :=
  hashLoop Items (length Items) "".

Definition isWarning (evt : Event) : bool :=
  bool_decide (Type_ evt = EventTypeWarning)
  || bool_decide (Reason evt = "HealthCheckFailed")
  || bool_decide (Reason evt = "DependencyNotReady").

Definition PrintEvent (evt : Event) : notification :=
  {| n_reason := Reason evt; n_message := Message evt;
     n_isWarning := isWarning evt |}.

(** The second loop:
    [for i := len-1; i >= 0 && shown < 2; i-- { PrintEvent(...); shown++ }],
    with the notifications in the order they are printed. *)
Fixpoint showLoop (Items : list Event) (n : nat) (shown : nat)
  : list notification :=
  match n with
  | O => []
  | S i =>
      if bool_decide (shown < 2) then
        match Items !! i with
        | Some evt => PrintEvent evt :: showLoop Items i (S shown)
        | None => []
        end
      else []
  end.

(** [checkEvents]: the monitor after the call and what was printed. *)
Definition checkEvents (events : list_result) (m : Monitor)
  : Monitor * list notification :=
  match events with
  | ListErr _ => (m, [])
  | ListOk Items =>
      if bool_decide (length Items = 0) then (m, [])
      else
        let hash := eventsHash Items in
        if bool_decide (hash ≠ lastHash m) then
          (set_lastHash m hash, showLoop Items (length Items) 0)
        else (m, [])
  end.

(** ** Readiness *)

(** What [dynamicClient.Resource(gvr).Namespace(ns).Get] answers. *)
Inductive get_result : Type :=
| GetOk (Object : Unstructured.object)
| GetErr (err : error).

(** The body of [for _, cond := range conditions]: [true] when the loop
    leaves the function with [return true, nil], [false] when it runs to
    its end. *)
Fixpoint conditionsLoop (conditions : list Unstructured.value) : bool :=
  match conditions with
  | [] => false
  | cond :: rest =>
      match cond with
      | Unstructured.VMap condMap =>
          let '(condType, _, _) := Unstructured.NestedString condMap "type" in
          let '(condStatus, _, _) := Unstructured.NestedString condMap "status" in
          if bool_decide (condType = "Ready") && bool_decide (condStatus = "True")
          then true
          else conditionsLoop rest
      | _ => conditionsLoop rest
      end
  end.

(** [checkResourceReady], given the answer of the [Get] it starts with:
    the pair [(ready, err)]. *)
Definition checkResourceReady (get : get_result) : bool * option error :=
  match get with
  | GetErr err => (false, Some err)
  | GetOk obj =>
      let '(status, found, err) := Unstructured.NestedMap obj "status" in
      if negb found || bool_decide (err ≠ None) then (false, ErrAccessor <$> err)
      else
        let '(conditions, found, err) :=
          Unstructured.NestedSlice status "conditions" in
        if negb found || bool_decide (err ≠ None)
        then (false, ErrAccessor <$> err)
        else (conditionsLoop conditions, None)
  end.

(** The [switch m.kind] of [WaitForReady]; [None] is its [default]. *)
Definition resolveGVR (kind : string) : option GroupVersionResource :=
  if bool_decide (kind = "kustomization") then
    Some {| Group := "kustomize.toolkit.fluxcd.io"; Version := "v1";
            Resource := "kustomizations" |}
  else if bool_decide (kind = "helmrelease") then
    Some {| Group := "helm.toolkit.fluxcd.io"; Version := "v2beta1";
            Resource := "helmreleases" |}
  else if bool_decide (kind = "source") || bool_decide (kind = "gitrepository") then
    Some {| Group := "source.toolkit.fluxcd.io"; Version := "v1";
            Resource := "gitrepositories" |}
  else None.

(** Wall-clock instants and durations, in nanoseconds. *)
Abbreviation Time := Z (only parsing).
Abbreviation Duration := Z (only parsing).

(** Which error a finished context reports from [ctx.Err()]. *)
Inductive ctx_cause : Type := CtxCanceled | CtxDeadlineExceeded.

Definition ctxErr (c : ctx_cause) : error :=
  match c with
  | CtxCanceled => Canceled
  | CtxDeadlineExceeded => DeadlineExceeded
  end.

(** One return of the [select] in [WaitForReady], at the instant [now]:
    either the [ctx.Done()] case was taken, or the ticker case, in which
    [time.Now()] reads [now] and a [Get], if one is made, answers [get]. *)
Inductive wakeup : Type :=
| CtxDone (now : Time) (cause : ctx_cause)
| Tick (now : Time) (get : get_result).

(** A status fetch: the coordinates [Get] was called with. *)
Record fetch : Type := {
  f_gvr : GroupVersionResource;
  f_namespace : string;
  f_name : string
}.

(** [Returned err] is a return from [WaitForReady]; [Waiting] is the
    loop blocked in [select] once every given wakeup is consumed. *)
Inductive outcome : Type :=
| Returned (err : option error)
| Waiting.

(** The [for { select { ... } }] loop, with the fetches made so far. *)
Fixpoint waitLoop (m : Monitor) (gvr : GroupVersionResource)
    (deadline : Time) (world : list wakeup) (fetched : list fetch)
  : outcome * list fetch :=
  match world with
  | [] => (Waiting, fetched)
  | CtxDone _ cause :: _ => (Returned (Some (ctxErr cause)), fetched)
  | Tick now get :: world' =>
      if (now >? deadline)%Z then (Returned (Some (ErrTimeout (kind m))), fetched)
      else
        let fetched' :=
          fetched ++ [{| f_gvr := gvr; f_namespace := namespace m;
                         f_name := name m |}] in
        match checkResourceReady get with
        | (_, Some _) => waitLoop m gvr deadline world' fetched'
        | (true, None) => (Returned None, fetched')
        | (false, None) => waitLoop m gvr deadline world' fetched'
        end
  end.

(** [WaitForReady], entered at the instant [start]. *)
Definition WaitForReady (m : Monitor) (start : Time) (timeout : Duration)
    (world : list wakeup) : outcome * list fetch :=
  let deadline := (start + timeout)%Z in
  match resolveGVR (kind m) with
  | None => (Returned (Some (ErrUnsupportedKind (kind m))), [])
  | Some gvr => waitLoop m gvr deadline world []
  end.

(** ** What the properties speak of *)

(** The part of an event the fingerprint is made of. *)
Definition content (evt : Event) : string * string * string :=
  (Reason evt, Type_ evt, Message evt).

Definition keyOf (c : string * string * string) : string :=
  let '(reason, type, message) := c in
  reason +:+ ":" +:+ type +:+ ":" +:+ message.

(** The last [k] elements of a list, in the list's order. *)
Definition lastN {A} (k : nat) (l : list A) : list A :=
  drop (length l - k) l.

(** The contents of the last three events or fewer, the last event
    first. *)
Definition recentContent (Items : list Event) : list (string * string * string) :=
  reverse (lastN 3 (content <$> Items)).

Definition fingerprint (cs : list (string * string * string)) : string :=
  foldr (λ c acc, keyOf c +:+ acc) "" cs.

Fixpoint colonFree (s : string) : bool :=
  match s with
  | EmptyString => true
  | String a s' => negb (bool_decide (a = ":"%char)) && colonFree s'
  end.

(** A condition entry that reports readiness. *)
Definition isReadyCondition (cond : Unstructured.value) : Prop :=
  ∃ condMap, cond = Unstructured.VMap condMap
    ∧ condMap !! "type" = Some (Unstructured.VString "Ready")
    ∧ condMap !! "status" = Some (Unstructured.VString "True").

(** The sequence under [status.conditions], empty when there is none. *)
Definition statusConditions (obj : Unstructured.object) : list Unstructured.value :=
  match obj !! "status" with
  | Some (Unstructured.VMap status) =>
      match status !! "conditions" with
      | Some (Unstructured.VSlice conditions) => conditions
      | _ => []
      end
  | _ => []
  end.

Definition supportedKinds : list string :=
  ["kustomization"; "helmrelease"; "source"; "gitrepository"].

(** ** Sample data *)

(** The coordinates of the three resources. *)
Definition kustomizations : GroupVersionResource :=
  {| Group := "kustomize.toolkit.fluxcd.io"; Version := "v1";
     Resource := "kustomizations" |}.

Definition helmreleases : GroupVersionResource :=
  {| Group := "helm.toolkit.fluxcd.io"; Version := "v2beta1";
     Resource := "helmreleases" |}.

Definition gitrepositories : GroupVersionResource :=
  {| Group := "source.toolkit.fluxcd.io"; Version := "v1";
     Resource := "gitrepositories" |}.

(** An event with the given reason, type and message. *)
Definition mkEvent (reason type message : string) : Event :=
  {| Reason := reason; Message := message; Type_ := type;
     Count := 1; LastTimestamp := 0 |}.

Definition freshMonitor (kind : string) : Monitor :=
  {| kind := kind; name := "podinfo"; namespace := "flux-system";
     lastHash := ""; ready := false |}.

(** A condition entry and a document made of condition entries. *)
Definition condition (type status : string) : Unstructured.value :=
  Unstructured.VMap
    {[ "type" := Unstructured.VString type;
       "status" := Unstructured.VString status ]}.

Definition document (conditions : list Unstructured.value)
  : gmap string Unstructured.value :=
  {[ "status" :=
       Unstructured.VMap {[ "conditions" := Unstructured.VSlice conditions ]} ]}.

(** The fingerprint is a plain concatenation, so two windows that differ
    can still have the same fingerprint: here the last letter of the
    newest message moves to the front of the older reason. *)
Definition collidingOld : list Event :=
  [ mkEvent "Failed" "Warning" "apply failed";
    mkEvent "Progressing" "Normal" "retrying" ].

Definition collidingNew : list Event :=
  [ mkEvent "gFailed" "Warning" "apply failed";
    mkEvent "Progressing" "Normal" "retryin" ].

(** A colon inside a reason or a type shifts the cut between the fields
    of one event. *)
Definition colonOld : list Event :=
  [ mkEvent "Sync:Apply" "Normal" "done" ].

Definition colonNew : list Event :=
  [ mkEvent "Sync" "Apply:Normal" "done" ].

(** The size of a window: the characters of its reasons, types and
    messages, and two for each event. *)
Definition contentSize (cs : list (string * string * string)) : nat :=
  foldr (λ c n,
           let '(reason, type, message) := c in
           String.length reason + String.length type
           + String.length message + 2 + n) 0 cs.

Definition isPrefix (s t : string) : Prop := ∃ u, t = s +:+ u.

(** Two windows that the fingerprint tells apart: their sizes differ, as
    when an event arrives in a window of fewer than three; or, at the
    newest position where they differ, the reasons and types hold no
    colon and the reasons differ, or the types differ, or neither message
    is the beginning of the other, or the messages differ and no older
    event follows in either window. *)
Definition distinguishable (W1 W2 : list (string * string * string)) : Prop :=
  contentSize W1 ≠ contentSize W2
  ∨ ∃ newer r1 t1 msg1 older1 r2 t2 msg2 older2,
      W1 = newer ++ (r1, t1, msg1) :: older1
      ∧ W2 = newer ++ (r2, t2, msg2) :: older2
      ∧ colonFree r1 = true ∧ colonFree t1 = true
      ∧ colonFree r2 = true ∧ colonFree t2 = true
      ∧ (r1 ≠ r2
         ∨ t1 ≠ t2
         ∨ (¬ isPrefix msg1 msg2 ∧ ¬ isPrefix msg2 msg1)
         ∨ (msg1 ≠ msg2 ∧ older1 = [] ∧ older2 = [])).

(** ** The watch loop *)

(** One return of the [select] in [Watch]: the monitor's context is
    done, or the ticker fired and the event list answers [events]. *)
Inductive watch_wakeup : Type :=
| WatchDone
| WatchTick (events : list_result).

(** [WatchReturned] is the return of [Watch]; [WatchBlocked] is the loop
    blocked in [select] once every given wakeup is consumed. *)
Inductive watch_state : Type :=
| WatchReturned
| WatchBlocked.

(** [Watch]: the monitor it leaves, all it printed, and whether it
    returned. *)
Fixpoint Watch (world : list watch_wakeup) (m : Monitor)
  : Monitor * list notification * watch_state :=
  match world with
  | [] => (m, [], WatchBlocked)
  | WatchDone :: _ => (m, [], WatchReturned)
  | WatchTick events :: world' =>
      let '(m1, out1) := checkEvents events m in
      let '(m2, out2, st) := Watch world' m1 in
      (m2, out1 ++ out2, st)
  end.

(** The notification an event of content [c] is printed as. *)
Definition printContent (c : string * string * string) : notification :=
  let '(reason, type, message) := c in
  {| n_reason := reason; n_message := message;
     n_isWarning :=
       bool_decide (type = EventTypeWarning)
       || bool_decide (reason = "HealthCheckFailed")
       || bool_decide (reason = "DependencyNotReady") |}.

(** A wakeup of a watch over a steady stream: a tick answers an error,
    no event, or events of the contents [cs]. *)
Definition steadyWakeup (cs : list (string * string * string))
    (w : watch_wakeup) : Prop :=
  match w with
  | WatchDone => True
  | WatchTick (ListErr _) => True
  | WatchTick (ListOk Items) => Items = [] ∨ content <$> Items = cs
  end.

(** A tick that changes nothing: an error or an empty list. *)
Definition idleTick (w : watch_wakeup) : Prop :=
  match w with
  | WatchTick (ListErr _) | WatchTick (ListOk []) => True
  | _ => False
  end.

Definition isWatchTick (w : watch_wakeup) : bool :=
  match w with WatchTick _ => true | WatchDone => false end.

Definition isTick (w : wakeup) : bool :=
  match w with Tick _ _ => true | CtxDone _ _ => false end.

(** ** Setting the monitor up *)

(** What [rest.InClusterConfig] and [clientcmd.BuildConfigFromFlags]
    answer; a configuration is known by its host. *)
Inductive config_result : Type :=
| ConfigOk (host : string)
| ConfigErr (err : error).

(** [getKubeConfig], given the answers of the two sources it tries. *)
Definition getKubeConfig (inCluster kubeconfigFile : config_result)
  : config_result :=
  match inCluster with
  | ConfigOk config => ConfigOk config
  | ConfigErr _ =>
      match kubeconfigFile with
      | ConfigErr err => ConfigErr err
      | ConfigOk config => ConfigOk config
      end
  end.

(** The errors of [NewMonitor], each wrapping its cause with [%w]. *)
Inductive setup_error : Type :=
| FailedKubeconfig (cause : error)
| FailedClientset (cause : error)
| FailedDynamicClient (cause : error).

Definition SetupError (e : setup_error) : string :=
  match e with
  | FailedKubeconfig cause => "failed to get kubeconfig: " +:+ Error cause
  | FailedClientset cause => "failed to create clientset: " +:+ Error cause
  | FailedDynamicClient cause =>
      "failed to create dynamic client: " +:+ Error cause
  end.

(** What the outside answers during [NewMonitor]: the two configuration
    sources, and the error, if any, of each client constructor on the
    configuration it is given. *)
Record setup_env : Type := {
  inClusterConfig : config_result;
  kubeconfigFile : config_result;
  newClientset : string → option error;
  newDynamicClient : string → option error
}.

(** [NewMonitor]: a monitor or an error, never both. *)
Definition NewMonitor (env : setup_env) (kind name namespace : string)
  : Monitor + setup_error :=
  match getKubeConfig (inClusterConfig env) (kubeconfigFile env) with
  | ConfigErr err => inr (FailedKubeconfig err)
  | ConfigOk config =>
      match newClientset env config with
      | Some err => inr (FailedClientset err)
      | None =>
          match newDynamicClient env config with
          | Some err => inr (FailedDynamicClient err)
          | None =>
              inl {| kind := kind; name := name; namespace := namespace;
                     lastHash := ""; ready := false |}
          end
      end
  end.

(** ** The command line *)

Record Flags : Type := {
  flag_kind : string;
  flag_name : string;
  flag_namespace : string;
  flag_wait : bool;
  flag_timeout : Z
}.

(** The kinds for which [main] starts a monitor. *)
Definition monitoredKind (kind : string) : bool :=
  bool_decide (kind = "kustomization")
  || bool_decide (kind = "helmrelease")
  || bool_decide (kind = "source").

(** [cmd.Args] as [main] builds it. *)
Definition fluxArgs (kind name namespace : string) : list string :=
  if bool_decide (kind = "source") then
    ["flux"; "reconcile"; "source"; "git"; name; "-n"; namespace]
  else
    ["flux"; "reconcile"; kind; name; "-n"; namespace]
    ++ (if bool_decide (kind = "kustomization")
           || bool_decide (kind = "helmrelease")
        then ["--with-source"] else []).

(** What [cmd.Run] answers: success, an [*exec.ExitError] with its exit
    code, or another error. *)
Inductive run_result : Type :=
| RunOk
| RunExitError (code : Z)
| RunFailed (msg : string).

(** What the main goroutine does, in order. *)
Inductive action : Type :=
| Stderr (text : string)
| StartWatch (m : Monitor)
| PrintCommand (args : list string)
| RunCommand (args : list string)
| PrintWaiting (kind name : string)
| Fetch (f : fetch)
| PrintError (text : string)
| PrintSuccess (kind name : string)
| StopMonitor
| CancelContext.

Definition newline : string := String (ascii_of_nat 10) "".

(** What the outside answers during [main].  The flux command runs under
    the context that [main] makes with the timeout flag, so [run], its
    result, is the result under that timeout. *)
Record main_env : Type := {
  setup : setup_env;
  run : run_result;
  waitStart : Z;
  waitWorld : list wakeup
}.

(** How [main] ends: [Exit code] is [os.Exit(code)], which skips the
    deferred calls; [Return] is the return from [main], after the
    deferred calls; [Blocked] is [main] waiting in [WaitForReady] once
    every given wakeup is consumed. *)
Inductive main_end : Type :=
| Exit (code : Z)
| Return
| Blocked.

(** The monitor part of [main]: the monitor, if one was started, and the
    actions taken. *)
Definition startMonitor (f : Flags) (env : setup_env)
  : option Monitor * list action :=
  if monitoredKind (flag_kind f) then
    match NewMonitor env (flag_kind f) (flag_name f) (flag_namespace f) with
    | inr err =>
        (None,
         [Stderr ("Warning: Could not start event monitoring: "
                  +:+ SetupError err +:+ newline)])
    | inl m => (Some m, [StartWatch m])
    end
  else (None, []).

(** The deferred calls of a return from [main], last deferred first. *)
Definition deferred (eventMonitor : option Monitor) : list action :=
  match eventMonitor with
  | Some _ => [StopMonitor; CancelContext]
  | None => [CancelContext]
  end.

(** [main], after [flag.Parse]. *)
Definition main (f : Flags) (env : main_env) : list action * main_end :=
  if bool_decide (flag_kind f = "") || bool_decide (flag_name f = "") then
    ([Stderr ("Error: --kind and --name are required" +:+ newline)], Exit 1)
  else
    let '(eventMonitor, started) := startMonitor f (setup env) in
    let args := fluxArgs (flag_kind f) (flag_name f) (flag_namespace f) in
    let ran := started ++ [PrintCommand args; RunCommand args] in
    match run env with
    | RunExitError code => (ran, Exit code)
    | RunFailed msg =>
        (ran ++ [Stderr ("Error running flux: " +:+ msg +:+ newline)], Exit 1)
    | RunOk =>
        match eventMonitor with
        | Some m =>
            if flag_wait f then
              let waiting :=
                ran ++ [PrintWaiting (flag_kind f) (flag_name f)] in
              match WaitForReady m (waitStart env) (flag_timeout f)
                      (waitWorld env) with
              | (Returned (Some err), fetched) =>
                  (waiting ++ (Fetch <$> fetched)
                   ++ [PrintError ("Reconciliation failed or timed out: "
                                   +:+ Error err)],
                   Exit 1)
              | (Returned None, fetched) =>
                  (waiting ++ (Fetch <$> fetched)
                   ++ [PrintSuccess (flag_kind f) (flag_name f)]
                   ++ deferred eventMonitor,
                   Return)
              | (Waiting, fetched) =>
                  (waiting ++ (Fetch <$> fetched), Blocked)
              end
            else (ran ++ deferred eventMonitor, Return)
        | None => (ran ++ deferred eventMonitor, Return)
        end
    end.

(** ** Strings *)

Section strings.

Lemma app_String a s t : String a s +:+ t = String a (s +:+ t).
Proof. reflexivity. Qed.

Lemma app_empty_r s : s +:+ "" = s.
Proof. induction s as [|a s IH]; [done|]. by rewrite app_String, IH. Qed.

Lemma app_assoc_s s t u : (s +:+ t) +:+ u = s +:+ (t +:+ u).
Proof.
  induction s as [|a s IH]; [done|]. by rewrite !app_String, IH.
Qed.

Lemma length_app_s s t :
  String.length (s +:+ t) = String.length s + String.length t.
Proof.
  induction s as [|a s IH]; [done|]. rewrite app_String. simpl. by rewrite IH.
Qed.

(** Cancellation on the right, by induction on both prefixes. *)
Lemma app_inj_r s s' t : s +:+ t = s' +:+ t → s = s'.
Proof.
  revert s'. induction s as [|a s IH]; intros [|a' s'] H.
  - done.
  - apply (f_equal String.length) in H.
    rewrite !length_app_s in H. simpl in H. lia.
  - apply (f_equal String.length) in H.
    rewrite !length_app_s in H. simpl in H. lia.
  - rewrite !app_String in H. injection H as -> H. f_equal. by apply IH.
Qed.

Lemma String_discr a s : String a s ≠ "".
Proof. discriminate. Qed.

Lemma app_empty_l t : "" +:+ t = t.
Proof. reflexivity. Qed.

(** A colon-free prefix ends at the first colon. *)
Lemma colon_split r r' x x' :
  colonFree r = true → colonFree r' = true →
  r +:+ ":" +:+ x = r' +:+ ":" +:+ x' → r = r' ∧ x = x'.
Proof.
  revert r'. induction r as [|a r IH]; intros [|a' r'] Hr Hr' H;
    rewrite ?app_String, ?app_empty_l in H.
  - split; [done|]. by injection H.
  - injection H as <- _. by vm_compute in Hr'.
  - injection H as -> _. by vm_compute in Hr.
  - injection H as -> H.
    simpl in Hr, Hr'. apply andb_prop in Hr as [_ Hr].
    apply andb_prop in Hr' as [_ Hr'].
    destruct (IH r' Hr Hr' H) as [-> ->]. done.
Qed.

Lemma keyOf_inj r t msg r' t' msg' :
  colonFree r = true → colonFree t = true →
  colonFree r' = true → colonFree t' = true →
  keyOf (r, t, msg) = keyOf (r', t', msg') → (r, t, msg) = (r', t', msg').
Proof.
  intros Hr Ht Hr' Ht' H. simpl in H.
  apply colon_split in H as [-> H]; [|done..].
  apply colon_split in H as [-> ->]; done.
Qed.

Lemma fingerprint_cons c cs :
  fingerprint (c :: cs) = keyOf c +:+ fingerprint cs.
Proof. reflexivity. Qed.

Lemma fingerprint_app cs ds :
  fingerprint (cs ++ ds) = fingerprint cs +:+ fingerprint ds.
Proof.
  induction cs as [|c cs IH]; [done|].
  simpl. by rewrite IH, app_assoc_s.
Qed.

End strings.

(** ** The two loops of [checkEvents], in closed form *)

Section loops.

Implicit Types (Items : list Event) (evt : Event) (hash : string).

Lemma eventKey_content evt : eventKey evt = keyOf (content evt).
Proof. reflexivity. Qed.

Lemma drop_take_snoc {A} (l : list A) i k x :
  l !! i = Some x → k ≤ i →
  drop k (take (S i) l) = drop k (take i l) ++ [x].
Proof.
  intros Hx Hk. rewrite (take_S_r _ _ _ Hx).
  apply drop_app_le. rewrite length_take. apply lookup_lt_Some in Hx. lia.
Qed.

(** From counter [n], the hash loop appends the keys of the events at
    the indices below [n] and not below [len - 3], highest index
    first. *)
Lemma hashLoop_closed Items n hash :
  n ≤ length Items →
  hashLoop Items n hash =
    hash +:+ fingerprint
      (reverse (drop (length Items - 3) (take n (content <$> Items)))).
Proof.
  revert hash. induction n as [|i IH]; intros hash Hn.
  - simpl. rewrite take_0, drop_nil. simpl. by rewrite app_empty_r.
  - destruct (lookup_lt_is_Some_2 Items i) as [evt Hevt]; [lia|].
    simpl. rewrite Hevt. destruct (Z.geb_spec (Z.of_nat i) (Z.of_nat (length Items) - 3)) as [Hge|Hlt].
    + rewrite IH by lia.
      rewrite (drop_take_snoc _ _ _ (content evt)); [|by rewrite list_lookup_fmap, Hevt|lia].
      rewrite reverse_snoc. simpl.
      by rewrite app_assoc_s, eventKey_content.
    + rewrite drop_ge; [by rewrite app_empty_r|].
      rewrite length_take, length_fmap. lia.
Qed.

Lemma eventsHash_recent Items :
  eventsHash Items = fingerprint (recentContent Items).
Proof.
  unfold eventsHash, recentContent, lastN.
  rewrite hashLoop_closed by done.
  rewrite app_empty_l, length_fmap, take_ge; [done|].
  by rewrite length_fmap.
Qed.

(** From counter [n] with [shown] events printed, the display loop
    prints the events below [n], highest index first, until two are
    printed in all. *)
Lemma showLoop_closed Items n shown :
  n ≤ length Items →
  showLoop Items n shown =
    PrintEvent <$> reverse (drop (n - (2 - shown)) (take n Items)).
Proof.
  revert shown. induction n as [|i IH]; intros shown Hn.
  - by rewrite take_0, drop_nil.
  - destruct (lookup_lt_is_Some_2 Items i) as [evt Hevt]; [lia|].
    simpl showLoop. rewrite Hevt. case_bool_decide as Hshown.
    + rewrite IH by lia.
      rewrite (drop_take_snoc _ _ _ evt) by (done || lia).
      rewrite reverse_snoc, fmap_cons.
      by replace (S i - (2 - shown)) with (i - (2 - S shown)) by lia.
    + rewrite drop_ge; [done|]. rewrite length_take. lia.
Qed.

Lemma showLoop_newest Items :
  showLoop Items (length Items) 0 = PrintEvent <$> reverse (lastN 2 Items).
Proof.
  rewrite showLoop_closed by done. unfold lastN.
  by rewrite take_ge, Nat.sub_0_r.
Qed.

Lemma recentContent_fmap Items Items' :
  content <$> Items = content <$> Items' →
  recentContent Items = recentContent Items'.
Proof. unfold recentContent. by intros ->. Qed.

(** After a check of a non-empty list the stored fingerprint is that
    list's, whether or not it was stored anew. *)
Lemma checkEvents_stores Items (m : Monitor) :
  Items ≠ [] →
  lastHash (checkEvents (ListOk Items) m).1 = eventsHash Items.
Proof.
  intros Hne. unfold checkEvents.
  rewrite bool_decide_false by (by destruct Items).
  case_bool_decide as Hh; [done|].
  destruct (decide (eventsHash Items = lastHash m)) as [Heq|Hne']; [|done].
  by symmetry.
Qed.

Lemma checkEvents_same Items (m : Monitor) :
  eventsHash Items = lastHash m →
  checkEvents (ListOk Items) m = (m, []).
Proof.
  intros Hh. unfold checkEvents.
  case_bool_decide; [done|]. by rewrite bool_decide_false by auto.
Qed.

Lemma checkEvents_changed Items (m : Monitor) :
  Items ≠ [] → eventsHash Items ≠ lastHash m →
  checkEvents (ListOk Items) m =
    (set_lastHash m (eventsHash Items),
     PrintEvent <$> reverse (lastN 2 Items)).
Proof.
  intros Hne Hh. unfold checkEvents.
  rewrite bool_decide_false by (by destruct Items).
  by rewrite bool_decide_true, showLoop_newest by done.
Qed.

End loops.

(** ** The change detector *)

(** C3. When two consecutive polls return event sequences with the same
    (reason, type, message) contents, the fingerprint computed on the
    second poll equals the one the first poll left stored, and the second
    check prints nothing and leaves the monitor as it was.  More
    generally, a check whose fingerprint equals the stored one prints
    nothing and changes nothing. *)
Theorem checkEvents_identical_content_silent
    (m m1 : Monitor) (Items1 Items2 : list Event) (out1 : list notification) :
  content <$> Items1 = content <$> Items2 →
  checkEvents (ListOk Items1) m = (m1, out1) →
  (Items2 ≠ [] → eventsHash Items2 = lastHash m1)
  ∧ checkEvents (ListOk Items2) m1 = (m1, [])
  ∧ (∀ Items, eventsHash Items = lastHash m1 →
       checkEvents (ListOk Items) m1 = (m1, [])).
Proof.
  intros Hc H1.
  assert (Hstored : Items2 ≠ [] → eventsHash Items2 = lastHash m1).
  { intros Hne.
    assert (Items1 ≠ []) as Hne1.
    { intros ->. by destruct Items2. }
    rewrite eventsHash_recent, <- (recentContent_fmap _ _ Hc),
      <- eventsHash_recent.
    rewrite <- (checkEvents_stores Items1 m Hne1). by rewrite H1. }
  split; [done|]. split; [|by intros; apply checkEvents_same].
  destruct Items2 as [|evt Items2]; [done|].
  apply checkEvents_same. by apply Hstored.
Qed.

Lemma checkEvents_identical_content_silent_witness :
  (checkEvents
     (ListOk [ {| Reason := "Progressing"; Message := "Reconciling";
                  Type_ := "Normal"; Count := 2; LastTimestamp := 1700 |} ])
     (set_lastHash (freshMonitor "kustomization")
                   "Progressing:Normal:Reconciling")).2 = [].
Proof.
  pose proof (checkEvents_identical_content_silent
    (freshMonitor "kustomization")
    (set_lastHash (freshMonitor "kustomization") "Progressing:Normal:Reconciling")
    [ mkEvent "Progressing" "Normal" "Reconciling" ]
    [ {| Reason := "Progressing"; Message := "Reconciling";
         Type_ := "Normal"; Count := 2; LastTimestamp := 1700 |} ]
    [ {| n_reason := "Progressing"; n_message := "Reconciling";
         n_isWarning := false |} ]
    eq_refl eq_refl) as (_ & H & _).
  rewrite H. reflexivity.
Defined.

(** C7. Whenever the fingerprint a check computes differs from the stored
    one, the check prints exactly [min 2 (length Items)] notifications:
    the last event of the list first, then the one before it.  For a
    non-empty list the new fingerprint is stored. *)
Theorem checkEvents_shows_two_newest (m : Monitor) (Items : list Event) :
  eventsHash Items ≠ lastHash m →
  (checkEvents (ListOk Items) m).2 = PrintEvent <$> reverse (lastN 2 Items)
  ∧ length (checkEvents (ListOk Items) m).2 = min 2 (length Items)
  ∧ (∀ evt, Items = [evt] →
       (checkEvents (ListOk Items) m).2 = [PrintEvent evt])
  ∧ (∀ older evt2 evt1, Items = older ++ [evt2; evt1] →
       (checkEvents (ListOk Items) m).2 = [PrintEvent evt1; PrintEvent evt2])
  ∧ (Items ≠ [] → lastHash (checkEvents (ListOk Items) m).1 = eventsHash Items).
Proof.
  intros Hh.
  assert (Hout : (checkEvents (ListOk Items) m).2
                 = PrintEvent <$> reverse (lastN 2 Items)).
  { destruct Items as [|evt Items]; [done|].
    by rewrite checkEvents_changed. }
  rewrite Hout. split; [done|]. split; [|split; [|split]].
  - unfold lastN. rewrite length_fmap, length_reverse, length_drop. lia.
  - by intros evt ->.
  - intros older evt2 evt1 ->. unfold lastN.
    rewrite length_app. simpl.
    replace (length older + 2 - 2) with (length older) by lia.
    by rewrite drop_app_length.
  - apply checkEvents_stores.
Qed.

Lemma checkEvents_shows_two_newest_witness :
  (checkEvents
     (ListOk [ mkEvent "Progressing" "Normal" "one";
               mkEvent "Progressing" "Normal" "two";
               mkEvent "ReconciliationSucceeded" "Normal" "three" ])
     (freshMonitor "kustomization")).2
  = [ {| n_reason := "ReconciliationSucceeded"; n_message := "three";
         n_isWarning := false |};
      {| n_reason := "Progressing"; n_message := "two";
         n_isWarning := false |} ].
Proof.
  refine (proj1 (proj2 (proj2 (proj2
    (checkEvents_shows_two_newest (freshMonitor "kustomization") _ _))))
    [ mkEvent "Progressing" "Normal" "one" ]
    (mkEvent "Progressing" "Normal" "two")
    (mkEvent "ReconciliationSucceeded" "Normal" "three") eq_refl).
  vm_compute. discriminate.
Defined.

(** C8. A check never fails its caller: when the event source reports an
    error, or returns no event, the check prints nothing and leaves the
    monitor, and so the stored fingerprint, as it was. *)
Theorem checkEvents_swallows_errors (m : Monitor) :
  (∀ err, checkEvents (ListErr err) m = (m, []))
  ∧ checkEvents (ListOk []) m = (m, []).
Proof. split; [intros err|]; reflexivity. Qed.

(** C6. Every notification a check prints comes from an event of the
    list, with that event's reason and message, and its warning flag is
    set exactly when the event's type is [Warning] or its reason is
    [HealthCheckFailed] or [DependencyNotReady]. *)
Theorem checkEvents_warning_flag
    (events : list_result) (m : Monitor) (n : notification) :
  n ∈ (checkEvents events m).2 →
  ∃ Items evt,
    events = ListOk Items ∧ evt ∈ Items
    ∧ n_reason n = Reason evt ∧ n_message n = Message evt
    ∧ (n_isWarning n = true ↔
         Type_ evt = EventTypeWarning
         ∨ Reason evt = "HealthCheckFailed"
         ∨ Reason evt = "DependencyNotReady")
    ∧ (Reason evt = "HealthCheckFailed" → Type_ evt = EventTypeNormal →
       n_isWarning n = true).
Proof.
  intros Hn. destruct events as [Items|err]; [|by apply elem_of_nil in Hn].
  assert (n ∈ PrintEvent <$> reverse (lastN 2 Items)) as Hin.
  { revert Hn. unfold checkEvents.
    case_bool_decide; [by intros ?%elem_of_nil|].
    case_bool_decide; [|by intros ?%elem_of_nil].
    by rewrite showLoop_newest. }
  apply list_elem_of_fmap in Hin as (evt & -> & Hevt).
  apply elem_of_reverse, subseteq_drop in Hevt.
  exists Items, evt. split; [done|]. split; [done|].
  split; [done|]. split; [done|].
  simpl. unfold isWarning.
  rewrite !orb_true_iff, !bool_decide_eq_true. tauto.
Qed.

Lemma checkEvents_warning_flag_witness :
  ∃ Items evt,
    ListOk [ mkEvent "HealthCheckFailed" EventTypeNormal "health check failed" ]
      = ListOk Items
    ∧ evt ∈ Items
    ∧ "HealthCheckFailed" = Reason evt
    ∧ "health check failed" = Message evt
    ∧ (true = true ↔
         Type_ evt = EventTypeWarning
         ∨ Reason evt = "HealthCheckFailed"
         ∨ Reason evt = "DependencyNotReady")
    ∧ (Reason evt = "HealthCheckFailed" → Type_ evt = EventTypeNormal →
       true = true).
Proof.
  apply (checkEvents_warning_flag
    (ListOk [ mkEvent "HealthCheckFailed" EventTypeNormal "health check failed" ])
    (freshMonitor "kustomization")
    {| n_reason := "HealthCheckFailed"; n_message := "health check failed";
       n_isWarning := true |}).
  vm_compute. apply list_elem_of_here.
Defined.

(** C4, as stated, fails, in two ways.  Two non-empty sequences of two
    events each, different in the content of both events and with no
    colon in any field, have the same fingerprint, and the second poll
    prints nothing: the end of the newest message is read as the start
    of the older reason.  And two single events that differ in reason
    and type have the same fingerprint when a colon stands inside
    them. *)
Lemma fingerprint_collision :
  collidingOld ≠ [] ∧ collidingNew ≠ []
  ∧ recentContent collidingOld ≠ recentContent collidingNew
  ∧ eventsHash collidingOld = eventsHash collidingNew
  ∧ (checkEvents (ListOk collidingNew)
       (checkEvents (ListOk collidingOld) (freshMonitor "kustomization")).1).2
    = []
  ∧ colonOld ≠ [] ∧ colonNew ≠ []
  ∧ recentContent colonOld ≠ recentContent colonNew
  ∧ eventsHash colonOld = eventsHash colonNew
  ∧ (checkEvents (ListOk colonNew)
       (checkEvents (ListOk colonOld) (freshMonitor "kustomization")).1).2
    = [].
Proof.
  split; [done|]. split; [done|]. split; [|split; [|split]].
  - vm_compute. discriminate.
  - reflexivity.
  - reflexivity.
  - split; [done|]. split; [done|]. split; [|split].
    + vm_compute. discriminate.
    + reflexivity.
    + reflexivity.
Qed.

Section detection.

Implicit Types (W : list (string * string * string)) (c : string * string * string).

Lemma length_keyOf r t msg :
  String.length (keyOf (r, t, msg))
  = String.length r + String.length t + String.length msg + 2.
Proof. unfold keyOf. rewrite !length_app_s. simpl. lia. Qed.

Lemma length_fingerprint W : String.length (fingerprint W) = contentSize W.
Proof.
  induction W as [|[[r t] msg] W IH]; [done|].
  rewrite fingerprint_cons, length_app_s, length_keyOf, IH. simpl. lia.
Qed.

(** Two beginnings of one string: one is the beginning of the other. *)
Lemma app_prefix s s' x y :
  s +:+ x = s' +:+ y → isPrefix s s' ∨ isPrefix s' s.
Proof.
  revert s'. induction s as [|a s IH]; intros [|a' s'] H.
  - left. by exists "".
  - left. by exists (String a' s').
  - right. by exists (String a s).
  - rewrite !app_String in H. injection H as -> H.
    destruct (IH _ H) as [[u ->]|[u ->]]; [left|right]; by exists u.
Qed.

Lemma distinguishable_fingerprint W1 W2 :
  distinguishable W1 W2 → fingerprint W1 ≠ fingerprint W2.
Proof.
  intros [Hsize|(newer & r1 & t1 & msg1 & older1 & r2 & t2 & msg2 & older2
                 & -> & -> & Hr1 & Ht1 & Hr2 & Ht2 & Hcase)] Heq.
  - apply Hsize. by rewrite <- !length_fingerprint, Heq.
  - rewrite !fingerprint_app, !fingerprint_cons in Heq.
    apply (inj (String.app _)) in Heq. unfold keyOf in Heq.
    rewrite !app_assoc_s in Heq.
    apply colon_split in Heq as [Hr Heq]; [|done..].
    destruct Hcase as [Hne|Hcase]; [done|].
    apply colon_split in Heq as [Ht Heq]; [|done..].
    destruct Hcase as [Hne|[[Hp1 Hp2]|(Hne & -> & ->)]]; [done| |].
    + destruct (app_prefix _ _ _ _ Heq); done.
    + apply Hne. by apply (app_inj_r _ _ "").
Qed.

(** An event that arrives in a window of fewer than three changes the
    size of the window. *)
Lemma arrival_distinguishable (Items : list Event) (evt : Event) :
  length Items < 3 →
  distinguishable (recentContent Items) (recentContent (Items ++ [evt])).
Proof.
  intros Hlen. left. unfold recentContent, lastN.
  rewrite fmap_app, length_app, !length_fmap. simpl.
  replace (length Items - 3) with 0 by lia.
  replace (length Items + 1 - 3) with 0 by lia.
  rewrite !drop_0, reverse_snoc.
  destruct (content evt) as [[r t] msg]. simpl. lia.
Qed.

End detection.

(** C4, amended.  For two non-empty event sequences whose windows of the
    last three events the fingerprint tells apart, the fingerprints
    differ and the second poll prints its newest events, at least one
    notification.  The windows are told apart when their sizes differ,
    as whenever an event arrives in a window of fewer than three; and
    when, at the newest position where they differ, the reasons and
    types hold no colon and the reasons differ, or the types differ, or
    neither message is the beginning of the other, or the messages
    differ and no older event follows. *)
Theorem fingerprint_detects_change
    (m : Monitor) (Items1 Items2 : list Event) :
  Items1 ≠ [] → Items2 ≠ [] →
  distinguishable (recentContent Items1) (recentContent Items2) →
  eventsHash Items1 ≠ eventsHash Items2
  ∧ (checkEvents (ListOk Items2) (checkEvents (ListOk Items1) m).1).2
    = PrintEvent <$> reverse (lastN 2 Items2)
  ∧ (checkEvents (ListOk Items2) (checkEvents (ListOk Items1) m).1).2 ≠ [].
Proof.
  intros Hne1 Hne2 Hd.
  assert (Hh : eventsHash Items1 ≠ eventsHash Items2).
  { rewrite !eventsHash_recent. by apply distinguishable_fingerprint. }
  split; [done|].
  rewrite checkEvents_changed; [|done|by rewrite checkEvents_stores].
  split; [done|]. simpl.
  intros Hlen%(f_equal length). revert Hlen. unfold lastN.
  rewrite length_fmap, length_reverse, length_drop.
  destruct Items2; [done|]. simpl. lia.
Qed.

Lemma fingerprint_detects_change_witness :
  (eventsHash [ mkEvent "Progressing" "Normal" "Reconciling";
                mkEvent "Progressing" "Normal" "Applied revision main" ]
   ≠ eventsHash ([ mkEvent "Progressing" "Normal" "Reconciling";
                   mkEvent "Progressing" "Normal" "Applied revision main" ]
                 ++ [ mkEvent "HealthCheckFailed" "Warning" "timeout" ])
   ∧ (checkEvents
        (ListOk ([ mkEvent "Progressing" "Normal" "Reconciling";
                   mkEvent "Progressing" "Normal" "Applied revision main" ]
                 ++ [ mkEvent "HealthCheckFailed" "Warning" "timeout" ]))
        (checkEvents
           (ListOk [ mkEvent "Progressing" "Normal" "Reconciling";
                     mkEvent "Progressing" "Normal" "Applied revision main" ])
           (freshMonitor "kustomization")).1).2
     = [ {| n_reason := "HealthCheckFailed"; n_message := "timeout";
            n_isWarning := true |};
         {| n_reason := "Progressing"; n_message := "Applied revision main";
            n_isWarning := false |} ])
  ∧ eventsHash [ mkEvent "A" "Normal" "one"; mkEvent "B" "Normal" "retry 1";
                 mkEvent "C" "Normal" "three" ]
    ≠ eventsHash [ mkEvent "A" "Normal" "one"; mkEvent "B" "Normal" "retry 22";
                   mkEvent "C" "Normal" "three" ].
Proof.
  split.
  - destruct (fingerprint_detects_change (freshMonitor "kustomization")
      [ mkEvent "Progressing" "Normal" "Reconciling";
        mkEvent "Progressing" "Normal" "Applied revision main" ]
      ([ mkEvent "Progressing" "Normal" "Reconciling";
         mkEvent "Progressing" "Normal" "Applied revision main" ]
       ++ [ mkEvent "HealthCheckFailed" "Warning" "timeout" ])) as (H1 & H2 & _).
    + discriminate.
    + discriminate.
    + apply arrival_distinguishable. simpl. lia.
    + split; [exact H1|exact H2].
  - apply (fingerprint_detects_change (freshMonitor "kustomization")
      [ mkEvent "A" "Normal" "one"; mkEvent "B" "Normal" "retry 1";
        mkEvent "C" "Normal" "three" ]
      [ mkEvent "A" "Normal" "one"; mkEvent "B" "Normal" "retry 22";
        mkEvent "C" "Normal" "three" ]).
    + discriminate.
    + discriminate.
    + right.
      exists [ ("C", "Normal", "three") ], "B", "Normal", "retry 1",
        [ ("A", "Normal", "one") ], "B", "Normal", "retry 22",
        [ ("A", "Normal", "one") ].
      repeat (split; [reflexivity|]).
      right. right. left. split; intros [u Hu]; discriminate Hu.
Defined.

(** ** The readiness check *)

Section readiness.

Import Unstructured.

Implicit Types (obj status condMap : gmap string value) (cond : value).

(** A string field read with [NestedString] equals a non-empty text
    exactly when the map holds that text under the field. *)
Lemma NestedString_eq condMap field s :
  s ≠ "" →
  (NestedString condMap field).1.1 = s ↔ condMap !! field = Some (VString s).
Proof.
  intros Hs. unfold NestedString, NestedFieldNoCopy.
  destruct (condMap !! field) as [[]|]; simpl; split; congruence.
Qed.

Lemma conditionsLoop_cons cond rest :
  conditionsLoop (cond :: rest) = true ↔
    isReadyCondition cond ∨ conditionsLoop rest = true.
Proof.
  assert (Hno : ∀ c, (∀ cm, c ≠ VMap cm) → ¬ isReadyCondition c).
  { intros c Hc (cm & -> & _). by eapply Hc. }
  destruct cond as [| | | | |condMap];
    try (simpl; split; [by right|intros [H|H]; [|done]];
         exfalso; revert H; by apply Hno).
  simpl.
  assert (Ht := NestedString_eq condMap "type" "Ready").
  assert (Hst := NestedString_eq condMap "status" "True").
  specialize (Ht (String_discr _ _)). specialize (Hst (String_discr _ _)).
  destruct (NestedString condMap "type") as [[condType ?] ?].
  destruct (NestedString condMap "status") as [[condStatus ?] ?].
  simpl in Ht, Hst.
  destruct (bool_decide_reflect (condType = "Ready")) as [HT|HT];
    destruct (bool_decide_reflect (condStatus = "True")) as [HS|HS]; simpl.
  - split; [|done]. intros _. left. exists condMap.
    split; [done|]. split; [by apply Ht|by apply Hst].
  - split; [by right|]. intros [(cm & [= ->] & _ & Hs)|H]; [|done].
    by apply Hst in Hs.
  - split; [by right|]. intros [(cm & [= ->] & Hty & _)|H]; [|done].
    by apply Ht in Hty.
  - split; [by right|]. intros [(cm & [= ->] & Hty & _)|H]; [|done].
    by apply Ht in Hty.
Qed.

(** The loop returns [true] exactly when some entry reports
    readiness. *)
Lemma conditionsLoop_true conditions :
  conditionsLoop conditions = true ↔
    ∃ cond, cond ∈ conditions ∧ isReadyCondition cond.
Proof.
  induction conditions as [|c rest IH].
  - split; [done|]. by intros (? & ?%elem_of_nil & _).
  - rewrite conditionsLoop_cons, IH. split.
    + intros [H|(c' & Hin & H)].
      * exists c. split; [left|done].
      * exists c'. split; [by right|done].
    + intros (c' & [->|Hin]%elem_of_cons & H); [by left|].
      right. by exists c'.
Qed.

(** An entry that is no map is passed over. *)
Lemma conditionsLoop_skip earlier cond later :
  (∀ condMap, cond ≠ VMap condMap) →
  conditionsLoop (earlier ++ cond :: later) = conditionsLoop (earlier ++ later).
Proof.
  intros Hc. induction earlier as [|c earlier IH].
  - destruct cond; try done. by destruct (Hc m).
  - simpl. rewrite IH. done.
Qed.

(** The readiness reported for a fetched document is the loop's answer
    on [status.conditions]. *)
Lemma checkResourceReady_conditions obj :
  (checkResourceReady (GetOk obj)).1 = conditionsLoop (statusConditions obj).
Proof.
  unfold checkResourceReady, statusConditions, NestedMap, NestedSlice,
    NestedFieldNoCopy.
  destruct (obj !! "status") as [[| | | | |status]|]; try done.
  simpl. destruct (status !! "conditions") as [[]|]; done.
Qed.

(** No error comes with a document that has a sequence of conditions. *)
Lemma checkResourceReady_slice obj status conditions :
  obj !! "status" = Some (VMap status) →
  status !! "conditions" = Some (VSlice conditions) →
  checkResourceReady (GetOk obj) = (conditionsLoop conditions, None).
Proof.
  intros Hs Hc.
  unfold checkResourceReady, NestedMap, NestedSlice, NestedFieldNoCopy.
  rewrite Hs. simpl. by rewrite Hc.
Qed.

Lemma statusConditions_cons obj c conditions :
  statusConditions obj = c :: conditions →
  ∃ status, obj !! "status" = Some (VMap status)
    ∧ status !! "conditions" = Some (VSlice (c :: conditions)).
Proof.
  unfold statusConditions.
  destruct (obj !! "status") as [[| | | | |status]|]; try done.
  destruct (status !! "conditions") as [[]|] eqn:Hc; try done.
  intros ->. eauto.
Qed.

Lemma statusConditions_mid obj earlier c later :
  statusConditions obj = earlier ++ c :: later →
  checkResourceReady (GetOk obj)
    = (conditionsLoop (earlier ++ c :: later), None).
Proof.
  intros H.
  assert (∃ c' l', earlier ++ c :: later = c' :: l') as (c' & l' & Heq).
  { destruct earlier; simpl; eauto. }
  rewrite Heq in H |- *.
  destruct (statusConditions_cons _ _ _ H) as (status & Hs & Hc).
  by apply (checkResourceReady_slice _ status).
Qed.

End readiness.

Section readiness_properties.

Import Unstructured.

(** C1. The readiness check of a fetched document answers ready = true
    exactly when the sequence under [status.conditions] holds a map
    entry whose [type] is the string [Ready] and whose [status] is the
    string [True].  Such an entry decides the answer wherever it
    stands: with it in the sequence the check returns [(true, nil)]
    whatever entries come before and after it. *)
Theorem checkResourceReady_ready_iff (obj : gmap string value) :
  ((checkResourceReady (GetOk obj)).1 = true ↔
     ∃ cond, cond ∈ statusConditions obj ∧ isReadyCondition cond)
  ∧ (∀ earlier cond later,
       statusConditions obj = earlier ++ cond :: later →
       isReadyCondition cond →
       checkResourceReady (GetOk obj) = (true, None)).
Proof.
  split.
  - by rewrite checkResourceReady_conditions, conditionsLoop_true.
  - intros earlier cond later Hobj Hcond.
    rewrite (statusConditions_mid _ _ _ _ Hobj). f_equal.
    apply conditionsLoop_true. exists cond. split; [|done].
    apply elem_of_app. right. left.
Qed.

Lemma checkResourceReady_ready_iff_witness :
  checkResourceReady
    (GetOk (document [ condition "Ready" "False";
                       condition "Ready" "True";
                       condition "Ready" "False" ]))
  = (true, None).
Proof.
  apply (proj2 (checkResourceReady_ready_iff _)
           [ condition "Ready" "False" ]
           (condition "Ready" "True")
           [ condition "Ready" "False" ]).
  - reflexivity.
  - eexists. split; [reflexivity|]. split; reflexivity.
Defined.

(** C2, as stated, fails: a document whose conditions hold an entry that
    is no map beside a [Ready]/[True] entry is reported ready, not "not
    ready yet". *)
Lemma non_map_entry_beside_ready :
  statusConditions (document [ VString "garbage"; condition "Ready" "True" ])
  = [ VString "garbage"; condition "Ready" "True" ]
  ∧ (∀ condMap, VString "garbage" ≠ VMap condMap)
  ∧ checkResourceReady
      (GetOk (document [ VString "garbage"; condition "Ready" "True" ]))
    = (true, None).
Proof. split; [reflexivity|]. split; [discriminate|reflexivity]. Qed.

(** C2, amended.  A document without a [status] key, or whose status has
    no [conditions] key, is reported as not ready, with no error.  An
    entry of the conditions that is no map brings no error and is passed
    over: the document is ready exactly when some other entry is a
    [Ready]/[True] map, and is reported as not ready, with no error,
    when no other entry is. *)
Theorem checkResourceReady_not_ready_yet (obj : gmap string value) :
  (obj !! "status" = None → checkResourceReady (GetOk obj) = (false, None))
  ∧ (∀ status,
       obj !! "status" = Some (VMap status) →
       status !! "conditions" = None →
       checkResourceReady (GetOk obj) = (false, None))
  ∧ (∀ earlier cond later,
       statusConditions obj = earlier ++ cond :: later →
       (∀ condMap, cond ≠ VMap condMap) →
       (checkResourceReady (GetOk obj)).2 = None
       ∧ ((checkResourceReady (GetOk obj)).1 = true ↔
            ∃ c, c ∈ earlier ++ later ∧ isReadyCondition c)
       ∧ ((∀ c, c ∈ earlier ++ later → ¬ isReadyCondition c) →
            checkResourceReady (GetOk obj) = (false, None))).
Proof.
  split; [|split].
  - intros Hs. unfold checkResourceReady, NestedMap, NestedFieldNoCopy.
    by rewrite Hs.
  - intros status Hs Hc.
    unfold checkResourceReady, NestedMap, NestedSlice, NestedFieldNoCopy.
    rewrite Hs. simpl. by rewrite Hc.
  - intros earlier cond later Hobj Hcond.
    rewrite (statusConditions_mid _ _ _ _ Hobj). simpl.
    rewrite (conditionsLoop_skip _ _ _ Hcond), conditionsLoop_true.
    split; [done|]. split; [done|].
    intros Hall. f_equal. apply not_true_is_false.
    rewrite conditionsLoop_true. intros (c & Hin & Hready).
    by eapply Hall.
Qed.

Lemma checkResourceReady_not_ready_yet_witness :
  checkResourceReady
    (GetOk (document [ condition "Ready" "False"; VString "garbage";
                       condition "Healthy" "True" ]))
  = (false, None).
Proof.
  refine (proj2 (proj2 (proj2 (proj2
    (checkResourceReady_not_ready_yet
       (document [ condition "Ready" "False"; VString "garbage";
                   condition "Healthy" "True" ])))
    [ condition "Ready" "False" ] (VString "garbage")
    [ condition "Healthy" "True" ] eq_refl _)) _).
  - discriminate.
  - intros c Hc (cm & -> & Hty & Hst).
    apply elem_of_cons in Hc as [Hc|Hc].
    + injection Hc as ->. vm_compute in Hst. discriminate.
    + apply list_elem_of_singleton in Hc. injection Hc as ->.
      vm_compute in Hty. discriminate.
Defined.

End readiness_properties.

(** ** The readiness poller *)

Section poller.

Implicit Types (m : Monitor) (world : list wakeup) (fetched : list fetch).

Lemma resolveGVR_unsupported k :
  k ∉ supportedKinds → resolveGVR k = None.
Proof.
  unfold supportedKinds. rewrite !not_elem_of_cons.
  intros (H1 & H2 & H3 & H4 & _). unfold resolveGVR.
  by rewrite !bool_decide_false by done.
Qed.

Lemma resolveGVR_supported k :
  k ∈ supportedKinds ↔ is_Some (resolveGVR k).
Proof.
  split.
  - unfold supportedKinds. rewrite !elem_of_cons.
    intros [->|[->|[->|[->|?%elem_of_nil]]]]; try done;
      eexists; reflexivity.
  - intros [gvr Hk]. destruct (decide (k ∈ supportedKinds)) as [|Hn]; [done|].
    by rewrite (resolveGVR_unsupported _ Hn) in Hk.
Qed.

Lemma WaitForReady_unsupported m start timeout world :
  kind m ∉ supportedKinds →
  WaitForReady m start timeout world
    = (Returned (Some (ErrUnsupportedKind (kind m))), []).
Proof.
  intros Hk. unfold WaitForReady. by rewrite resolveGVR_unsupported.
Qed.

(** Wakeups that leave the loop waiting can be followed by more. *)
Lemma waitLoop_app m gvr deadline world world' fetched0 fetched :
  waitLoop m gvr deadline world fetched0 = (Waiting, fetched) →
  waitLoop m gvr deadline (world ++ world') fetched0
    = waitLoop m gvr deadline world' fetched.
Proof.
  revert fetched0.
  induction world as [|[now cause|now get] world IH]; intros fetched0; simpl.
  - by intros [= ->].
  - done.
  - destruct (now >? deadline)%Z; [done|].
    destruct (checkResourceReady get) as [[] []]; try done; apply IH.
Qed.

(** Every fetch of the loop asks for the coordinates it was given. *)
Lemma waitLoop_fetches m gvr deadline world fetched0 f :
  f ∈ (waitLoop m gvr deadline world fetched0).2 →
  f ∈ fetched0
  ∨ f = {| f_gvr := gvr; f_namespace := namespace m; f_name := name m |}.
Proof.
  revert fetched0.
  induction world as [|[now cause|now get] world IH]; intros fetched0; simpl.
  - by left.
  - by left.
  - destruct (now >? deadline)%Z; [by left|].
    assert (∀ f0, f ∈ fetched0 ++ [f0] → f ∈ fetched0 ∨ f = f0) as Hsnoc.
    { intros f0 [?|?%list_elem_of_singleton]%elem_of_app; auto. }
    destruct (checkResourceReady get) as [[] []]; simpl;
      try (intros [?|?]%IH; [by apply Hsnoc|by right]).
    apply Hsnoc.
Qed.

Lemma Error_ctx_not_timeout cause k :
  Error (ctxErr cause) ≠ Error (ErrTimeout k).
Proof. destruct cause; discriminate. Qed.

End poller.

(** C9. When the wait is blocked in its loop and the next wakeup is the
    context's [Done], [WaitForReady] returns the context's error,
    [Canceled] or [DeadlineExceeded], without a further fetch, whatever
    the instant of the wakeup is, before or after the deadline.  That
    error is not the timeout error, and its text is not the timeout's. *)
Theorem WaitForReady_cancelled
    (m : Monitor) (start timeout now : Z) (cause : ctx_cause)
    (before after : list wakeup) (fetched : list fetch) :
  WaitForReady m start timeout before = (Waiting, fetched) →
  WaitForReady m start timeout (before ++ CtxDone now cause :: after)
    = (Returned (Some (ctxErr cause)), fetched)
  ∧ ctxErr cause ≠ ErrTimeout (kind m)
  ∧ Error (ctxErr cause) ≠ Error (ErrTimeout (kind m)).
Proof.
  intros Hw. split; [|split].
  - revert Hw. unfold WaitForReady.
    destruct (resolveGVR (kind m)) as [gvr|]; [|done].
    intros Hw. by rewrite (waitLoop_app _ _ _ _ _ _ _ Hw).
  - by destruct cause.
  - apply Error_ctx_not_timeout.
Qed.

Lemma WaitForReady_cancelled_witness :
  WaitForReady (freshMonitor "helmrelease") 0 10
    ([ Tick 2 (GetErr (ErrClient "connection refused")); Tick 4 (GetOk ∅) ]
       ++ CtxDone 60 CtxCanceled :: [ Tick 62 (GetOk ∅) ])
    = (Returned (Some Canceled),
       [ {| f_gvr := helmreleases; f_namespace := "flux-system";
            f_name := "podinfo" |};
         {| f_gvr := helmreleases; f_namespace := "flux-system";
            f_name := "podinfo" |} ])
  ∧ Canceled ≠ ErrTimeout "helmrelease"
  ∧ "context canceled" ≠ Error (ErrTimeout "helmrelease").
Proof.
  apply (WaitForReady_cancelled (freshMonitor "helmrelease") 0 10 60 CtxCanceled).
  reflexivity.
Defined.

(** C10. With a kind outside the table, [WaitForReady] returns the
    unsupported-kind error before it looks at the context or the clock:
    the result is the same whatever the wakeups are, also when the
    context is already done and the timeout is already over at entry,
    and it is neither a context error nor the timeout error. *)
Theorem WaitForReady_unsupported_before_all
    (m : Monitor) (start timeout : Z) (world : list wakeup) :
  kind m ∉ supportedKinds →
  WaitForReady m start timeout world
    = (Returned (Some (ErrUnsupportedKind (kind m))), [])
  ∧ (∀ cause, ErrUnsupportedKind (kind m) ≠ ctxErr cause)
  ∧ (∀ k, ErrUnsupportedKind (kind m) ≠ ErrTimeout k).
Proof.
  intros Hk. split; [by apply WaitForReady_unsupported|].
  split; [by intros []|done].
Qed.

Lemma WaitForReady_unsupported_before_all_witness :
  WaitForReady (freshMonitor "deployment") 100 (-5)
    [ CtxDone 100 CtxCanceled; Tick 102 (GetOk ∅) ]
    = (Returned (Some (ErrUnsupportedKind "deployment")), [])
  ∧ (∀ cause, ErrUnsupportedKind "deployment" ≠ ctxErr cause)
  ∧ (∀ k, ErrUnsupportedKind "deployment" ≠ ErrTimeout k).
Proof.
  apply (WaitForReady_unsupported_before_all (freshMonitor "deployment")).
  apply (bool_decide_unpack _). vm_compute. exact I.
Defined.

(** ** Convergence and timeout of the wait *)

(** A readiness answer of [true] comes with no error. *)
Lemma checkResourceReady_true (get : get_result) :
  (checkResourceReady get).1 = true →
  ∃ obj, get = GetOk obj ∧ checkResourceReady get = (true, None).
Proof.
  destruct get as [obj|err]; [|done]. intros Hr. exists obj. split; [done|].
  revert Hr.
  unfold checkResourceReady, Unstructured.NestedMap, Unstructured.NestedSlice,
    Unstructured.NestedFieldNoCopy.
  destruct (obj !! "status") as [[| | | | |status]|]; try done.
  simpl. destruct (status !! "conditions") as [[]|]; try done.
  simpl. by intros ->.
Qed.

(** X1. When the wait is blocked in its loop and the next wakeup is a
    tick not after the deadline whose fetch returns a document with a
    [Ready]/[True] condition, [WaitForReady] returns success at that
    tick, after exactly one more fetch. *)
Theorem WaitForReady_success
    (m : Monitor) (start timeout now : Z) (obj : gmap string Unstructured.value)
    (before after : list wakeup) (fetched : list fetch) :
  WaitForReady m start timeout before = (Waiting, fetched) →
  (now ≤ start + timeout)%Z →
  (∃ cond, cond ∈ statusConditions obj ∧ isReadyCondition cond) →
  ∃ gvr, resolveGVR (kind m) = Some gvr
    ∧ WaitForReady m start timeout (before ++ Tick now (GetOk obj) :: after)
      = (Returned None,
         fetched ++ [ {| f_gvr := gvr; f_namespace := namespace m;
                         f_name := name m |} ]).
Proof.
  intros Hw Hnow Hready. revert Hw. unfold WaitForReady.
  destruct (resolveGVR (kind m)) as [gvr|]; [|done].
  intros Hw. exists gvr. split; [done|].
  rewrite (waitLoop_app _ _ _ _ _ _ _ Hw). cbn [waitLoop].
  destruct (Z.gtb_spec now (start + timeout)) as [?|_]; [lia|].
  apply conditionsLoop_true in Hready.
  rewrite <- checkResourceReady_conditions in Hready.
  destruct (checkResourceReady_true _ Hready) as (? & _ & ->). done.
Qed.

Lemma WaitForReady_success_witness :
  ∃ gvr, resolveGVR "kustomization" = Some gvr
    ∧ WaitForReady (freshMonitor "kustomization") 0 10
        ([ Tick 2 (GetOk (document [ condition "Ready" "False" ])) ]
           ++ Tick 4 (GetOk (document [ condition "Ready" "True" ])) :: [])
      = (Returned None,
         [ {| f_gvr := kustomizations; f_namespace := "flux-system";
              f_name := "podinfo" |} ]
         ++ [ {| f_gvr := gvr; f_namespace := "flux-system";
                 f_name := "podinfo" |} ]).
Proof.
  apply (WaitForReady_success (freshMonitor "kustomization") 0 10 4
           (document [ condition "Ready" "True" ])).
  - reflexivity.
  - lia.
  - exists (condition "Ready" "True"). split; [left|].
    eexists. split; [reflexivity|]. split; reflexivity.
Defined.

(** X2. When no fetched document has a [Ready]/[True] condition,
    [WaitForReady] never returns success; and once the wait is blocked in
    its loop, a tick after the deadline makes it return the timeout
    error without a further fetch. *)
Theorem WaitForReady_timeout
    (m : Monitor) (start timeout : Z) (world : list wakeup) :
  (∀ now obj cond,
     Tick now (GetOk obj) ∈ world → cond ∈ statusConditions obj →
     ¬ isReadyCondition cond) →
  (WaitForReady m start timeout world).1 ≠ Returned None
  ∧ (∀ before now get after fetched,
       world = before ++ Tick now get :: after →
       WaitForReady m start timeout before = (Waiting, fetched) →
       (now > start + timeout)%Z →
       WaitForReady m start timeout world
         = (Returned (Some (ErrTimeout (kind m))), fetched)).
Proof.
  intros Hnever. split.
  - unfold WaitForReady. destruct (resolveGVR (kind m)) as [gvr|]; [|done].
    generalize (@nil fetch). revert Hnever.
    induction world as [|[now cause|now get] world IH]; intros Hnever fetched;
      cbn [waitLoop]; [done..|].
    destruct (now >? start + timeout)%Z; [done|].
    assert (IH' := λ f, IH (λ now obj cond H, Hnever now obj cond
                                (list_elem_of_further _ _ _ H)) f).
    destruct (checkResourceReady get) as [[] []] eqn:Hget; try apply IH'.
    exfalso.
    destruct (checkResourceReady_true get) as (obj & -> & _);
      [by rewrite Hget|].
    pose proof (checkResourceReady_conditions obj) as Hc.
    rewrite Hget in Hc. simpl in Hc. symmetry in Hc.
    apply conditionsLoop_true in Hc as (cond & Hin & Hready).
    eapply Hnever; [left|done..].
  - intros before now get after fetched -> Hw Hnow. revert Hw.
    unfold WaitForReady. destruct (resolveGVR (kind m)) as [gvr|]; [|done].
    intros Hw. rewrite (waitLoop_app _ _ _ _ _ _ _ Hw). cbn [waitLoop].
    destruct (Z.gtb_spec now (start + timeout)) as [_|?]; [done|lia].
Qed.

Lemma WaitForReady_timeout_witness :
  WaitForReady (freshMonitor "source") 0 2
    [ Tick 2 (GetOk (document [ condition "Ready" "False" ]));
      Tick 4 (GetOk (document [ condition "Ready" "False" ])) ]
  = (Returned (Some (ErrTimeout "source")),
     [ {| f_gvr := gitrepositories; f_namespace := "flux-system";
          f_name := "podinfo" |} ]).
Proof.
  refine (proj2 (WaitForReady_timeout (freshMonitor "source") 0 2 _ _)
            [ Tick 2 (GetOk (document [ condition "Ready" "False" ])) ]
            4%Z (GetOk (document [ condition "Ready" "False" ])) [] _
            eq_refl eq_refl _); [|lia].
  intros now obj cond Hin Hcond (cm & -> & Hty & Hst).
  assert (obj = document [ condition "Ready" "False" ]) as ->.
  { apply elem_of_cons in Hin as [[= _ ->]|Hin]; [done|].
    apply list_elem_of_singleton in Hin as [= _ ->]. done. }
  apply list_elem_of_singleton in Hcond as [= ->].
  vm_compute in Hst. discriminate.
Defined.

(** ** The watch loop: one check per tick until the context is done *)

Section watch.

Implicit Types (m : Monitor) (world : list watch_wakeup)
  (Items : list Event).

Lemma lastN_fmap {A B} (f : A → B) k (l : list A) :
  lastN k (f <$> l) = f <$> lastN k l.
Proof. unfold lastN. by rewrite fmap_drop, length_fmap. Qed.

Lemma PrintEvent_content evt : PrintEvent evt = printContent (content evt).
Proof. reflexivity. Qed.

Lemma shown_content Items :
  PrintEvent <$> reverse (lastN 2 Items)
  = printContent <$> reverse (lastN 2 (content <$> Items)).
Proof.
  rewrite lastN_fmap, <- fmap_reverse, <- list_fmap_compose.
  apply list_fmap_ext. intros _ evt _. apply PrintEvent_content.
Qed.

Lemma checkEvents_idle events m :
  idleTick (WatchTick events) → checkEvents events m = (m, []).
Proof. destruct events as [[|evt Items]|err]; done. Qed.

(** A check leaves the target of the monitor alone. *)
Lemma checkEvents_target events m :
  kind (checkEvents events m).1 = kind m
  ∧ name (checkEvents events m).1 = name m
  ∧ namespace (checkEvents events m).1 = namespace m
  ∧ ready (checkEvents events m).1 = ready m.
Proof.
  destruct events as [Items|err]; [|done]. unfold checkEvents.
  repeat case_bool_decide; done.
Qed.

Lemma checkEvents_length events m : length (checkEvents events m).2 ≤ 2.
Proof.
  destruct events as [Items|err]; [|simpl; lia]. unfold checkEvents.
  case_bool_decide; [simpl; lia|]. case_bool_decide; [|simpl; lia].
  rewrite showLoop_newest. unfold lastN. simpl.
  rewrite length_fmap, length_reverse, length_drop. lia.
Qed.

Lemma Watch_tick events world m :
  Watch (WatchTick events :: world) m
  = ((Watch world (checkEvents events m).1).1.1,
     (checkEvents events m).2 ++ (Watch world (checkEvents events m).1).1.2,
     (Watch world (checkEvents events m).1).2).
Proof.
  cbn [Watch]. destruct (checkEvents events m) as [m1 out1]. cbn [fst snd].
  by destruct (Watch world m1) as [[m2 out2] st].
Qed.

(** Over a steady stream whose fingerprint is the stored one, the watch
    prints nothing and keeps the monitor. *)
Lemma Watch_steady_silent cs world m :
  Forall (steadyWakeup cs) world →
  lastHash m = fingerprint (reverse (lastN 3 cs)) →
  (Watch world m).1 = (m, []).
Proof.
  intros Hw Hm. induction Hw as [|w world Hs _ IH]; [done|].
  destruct w as [|events]; [done|]. rewrite Watch_tick.
  assert (checkEvents events m = (m, [])) as ->;
    [|cbn [fst snd]; by rewrite IH].
  destruct events as [Items|err]; [|done].
  destruct Hs as [->|Hc]; [done|].
  apply checkEvents_same. rewrite eventsHash_recent. unfold recentContent.
  by rewrite Hc.
Qed.

End watch.

(** X3. When every tick of a watch answers an error, no event, or events
    of the same contents, the watch prints at most once, however many
    ticks there are: its whole output is empty or is the two newest
    events, newest first; it is empty when the stored fingerprint is
    already that of the contents. *)
Theorem Watch_steady_prints_once
    (cs : list (string * string * string)) (world : list watch_wakeup)
    (m : Monitor) :
  Forall (steadyWakeup cs) world →
  ((Watch world m).1.2 = []
   ∨ (Watch world m).1.2 = printContent <$> reverse (lastN 2 cs))
  ∧ (lastHash m = fingerprint (reverse (lastN 3 cs)) →
     (Watch world m).1 = (m, [])).
Proof.
  intros Hw. split; [|by apply Watch_steady_silent].
  revert m. induction Hw as [|w world Hs Hw IH]; intros m; [by left|].
  destruct w as [|events]; [by left|]. rewrite Watch_tick. simpl.
  destruct events as [Items|err]; [|apply IH].
  destruct Hs as [->|Hc]; [apply IH|].
  destruct (decide (eventsHash Items = lastHash m)) as [Heq|Hne].
  { rewrite (checkEvents_same _ _ Heq). apply IH. }
  destruct Items as [|evt Items]; [apply IH|].
  rewrite checkEvents_changed by done. simpl fst. simpl snd.
  rewrite Watch_steady_silent with (cs := cs); [|done|].
  - right. by rewrite app_nil_r, shown_content, Hc.
  - simpl. rewrite eventsHash_recent. unfold recentContent. by rewrite Hc.
Qed.

Lemma Watch_steady_prints_once_witness :
  (Watch [ WatchTick (ListOk [ mkEvent "Progressing" "info" "Reconciling" ]);
           WatchTick (ListOk [ mkEvent "Progressing" "info" "Reconciling" ]);
           WatchTick (ListErr (ErrClient "connection reset"));
           WatchTick (ListOk [ mkEvent "Progressing" "info" "Reconciling" ]) ]
         (freshMonitor "kustomization")).1.2
  = [ {| n_reason := "Progressing"; n_message := "Reconciling";
         n_isWarning := false |} ].
Proof.
  destruct (proj1 (Watch_steady_prints_once
    [ ("Progressing", "info", "Reconciling") ]
    [ WatchTick (ListOk [ mkEvent "Progressing" "info" "Reconciling" ]);
      WatchTick (ListOk [ mkEvent "Progressing" "info" "Reconciling" ]);
      WatchTick (ListErr (ErrClient "connection reset"));
      WatchTick (ListOk [ mkEvent "Progressing" "info" "Reconciling" ]) ]
    (freshMonitor "kustomization")
    ltac:(repeat constructor; by right))) as [H|H].
  - discriminate H.
  - exact H.
Defined.

(** X4. When the watch is blocked in its loop and the next wakeup is the
    context's [Done], [Watch] returns: the monitor and the output are
    those of the ticks before, and no later wakeup is looked at. *)
Theorem Watch_returns_on_done
    (before after : list watch_wakeup) (m : Monitor) :
  (Watch before m).2 = WatchBlocked →
  Watch (before ++ WatchDone :: after) m = ((Watch before m).1, WatchReturned).
Proof.
  revert m. induction before as [|[|events] before IH]; intros m; [done..|].
  rewrite <- app_comm_cons, !Watch_tick. cbn [fst snd].
  intros Hb. rewrite (IH _ Hb). reflexivity.
Qed.

Lemma Watch_returns_on_done_witness :
  Watch ([ WatchTick (ListOk [ mkEvent "Progressing" "Normal" "one" ]) ]
           ++ WatchDone
           :: [ WatchTick (ListOk [ mkEvent "Failed" "Warning" "two" ]) ])
        (freshMonitor "helmrelease")
  = ((Watch [ WatchTick (ListOk [ mkEvent "Progressing" "Normal" "one" ]) ]
            (freshMonitor "helmrelease")).1,
     WatchReturned).
Proof.
  apply (Watch_returns_on_done
           [ WatchTick (ListOk [ mkEvent "Progressing" "Normal" "one" ]) ]).
  reflexivity.
Defined.

(** X5. A tick whose event list fails or is empty has no effect on a
    watch: with or without it the watch prints the same notifications,
    leaves the same monitor and ends in the same way. *)
Theorem Watch_idle_tick
    (before after : list watch_wakeup) (w : watch_wakeup) (m : Monitor) :
  idleTick w →
  Watch (before ++ w :: after) m = Watch (before ++ after) m.
Proof.
  intros Hw. revert m.
  induction before as [|[|events] before IH]; intros m.
  - destruct w as [|events]; [done|].
    rewrite !app_nil_l, Watch_tick, (checkEvents_idle _ _ Hw). cbn [fst snd].
    by destruct (Watch after m) as [[] ?].
  - done.
  - rewrite <- !app_comm_cons, !Watch_tick. by rewrite IH.
Qed.

Lemma Watch_idle_tick_witness :
  Watch ([ WatchTick (ListOk [ mkEvent "Progressing" "Normal" "one" ]) ]
           ++ WatchTick (ListErr (ErrClient "i/o timeout"))
           :: [ WatchTick (ListOk [ mkEvent "Progressing" "Normal" "one" ]) ])
        (freshMonitor "helmrelease")
  = Watch ([ WatchTick (ListOk [ mkEvent "Progressing" "Normal" "one" ]) ]
             ++ [ WatchTick (ListOk [ mkEvent "Progressing" "Normal" "one" ]) ])
          (freshMonitor "helmrelease").
Proof.
  apply (Watch_idle_tick
           [ WatchTick (ListOk [ mkEvent "Progressing" "Normal" "one" ]) ]).
  exact I.
Defined.

(** X6. A watch never changes the target of its monitor, its kind, name
    and namespace, and prints at most two notifications for each tick. *)
Theorem Watch_keeps_target (world : list watch_wakeup) (m : Monitor) :
  kind (Watch world m).1.1 = kind m
  ∧ name (Watch world m).1.1 = name m
  ∧ namespace (Watch world m).1.1 = namespace m
  ∧ length (Watch world m).1.2 ≤ 2 * length (filter (λ w, isWatchTick w = true) world).
Proof.
  revert m. induction world as [|[|events] world IH]; intros m.
  - simpl. repeat split; lia.
  - simpl. repeat split; lia.
  - rewrite Watch_tick. cbn [fst snd].
    destruct (IH (checkEvents events m).1) as (-> & -> & -> & Hlen).
    destruct (checkEvents_target events m) as (-> & -> & -> & _).
    repeat split. rewrite length_app, filter_cons_True by done.
    pose proof (checkEvents_length events m). simpl. lia.
Qed.

(** ** The change detector: what the fingerprint sees *)

Section window.

Implicit Types (m : Monitor) (Items older recent : list Event).

Lemma lastN_app_ge {A} k (l1 l2 : list A) :
  k ≤ length l2 → lastN k (l1 ++ l2) = lastN k l2.
Proof.
  intros Hk. unfold lastN. rewrite length_app, drop_app.
  rewrite drop_ge by lia. simpl. f_equal. lia.
Qed.

Lemma recentContent_app older recent :
  3 ≤ length recent → recentContent (older ++ recent) = recentContent recent.
Proof.
  intros Hlen. unfold recentContent.
  by rewrite fmap_app, lastN_app_ge by (by rewrite length_fmap).
Qed.

Lemma length_recentContent Items :
  length (recentContent Items) = min 3 (length Items).
Proof.
  unfold recentContent, lastN.
  rewrite length_reverse, length_drop, length_fmap. lia.
Qed.

Lemma keyOf_length c : 2 ≤ String.length (keyOf c).
Proof.
  destruct c as [[r t] msg]. unfold keyOf.
  rewrite !length_app_s. simpl. lia.
Qed.

(** The fingerprint of a non-empty list is not the empty string a new
    monitor stores. *)
Lemma eventsHash_nonempty Items : Items ≠ [] → eventsHash Items ≠ "".
Proof.
  intros Hne. rewrite eventsHash_recent.
  pose proof (length_recentContent Items) as Hlen.
  destruct (recentContent Items) as [|c cs].
  - destruct Items; [done|]. simpl in Hlen. lia.
  - rewrite fingerprint_cons. intros Heq%(f_equal String.length).
    rewrite length_app_s in Heq. pose proof (keyOf_length c). simpl in Heq. lia.
Qed.

Lemma shown_nonempty Items :
  Items ≠ [] → PrintEvent <$> reverse (lastN 2 Items) ≠ [].
Proof.
  intros Hne Hnil%(f_equal length). revert Hnil. unfold lastN.
  rewrite length_fmap, length_reverse, length_drop.
  destruct Items; [done|]. simpl. lia.
Qed.

End window.

(** X7. The fingerprint reads the last three events only: when two polls
    agree on their last three events, whatever the older events are, the
    fingerprints are equal and the second poll prints nothing and leaves
    the monitor as it is. *)
Theorem checkEvents_older_events_unseen
    (m : Monitor) (older older' recent : list Event) :
  3 ≤ length recent →
  eventsHash (older ++ recent) = eventsHash (older' ++ recent)
  ∧ checkEvents (ListOk (older' ++ recent))
      (checkEvents (ListOk (older ++ recent)) m).1
    = ((checkEvents (ListOk (older ++ recent)) m).1, []).
Proof.
  intros Hlen.
  assert (Hh : eventsHash (older ++ recent) = eventsHash (older' ++ recent)).
  { by rewrite !eventsHash_recent, !recentContent_app. }
  split; [done|]. apply checkEvents_same. rewrite <- Hh.
  rewrite checkEvents_stores; [done|].
  destruct recent; [simpl in Hlen; lia|]. by destruct older.
Qed.

Lemma checkEvents_older_events_unseen_witness :
  eventsHash ([ mkEvent "Progressing" "Normal" "zero" ]
              ++ [ mkEvent "A" "Normal" "one"; mkEvent "B" "Normal" "two";
                   mkEvent "C" "Normal" "three" ])
  = eventsHash ([ mkEvent "Failed" "Warning" "other" ]
                ++ [ mkEvent "A" "Normal" "one"; mkEvent "B" "Normal" "two";
                     mkEvent "C" "Normal" "three" ])
  ∧ checkEvents
      (ListOk ([ mkEvent "Failed" "Warning" "other" ]
               ++ [ mkEvent "A" "Normal" "one"; mkEvent "B" "Normal" "two";
                    mkEvent "C" "Normal" "three" ]))
      (checkEvents
         (ListOk ([ mkEvent "Progressing" "Normal" "zero" ]
                  ++ [ mkEvent "A" "Normal" "one"; mkEvent "B" "Normal" "two";
                       mkEvent "C" "Normal" "three" ]))
         (freshMonitor "kustomization")).1
    = ((checkEvents
          (ListOk ([ mkEvent "Progressing" "Normal" "zero" ]
                   ++ [ mkEvent "A" "Normal" "one"; mkEvent "B" "Normal" "two";
                        mkEvent "C" "Normal" "three" ]))
          (freshMonitor "kustomization")).1, []).
Proof.
  apply (checkEvents_older_events_unseen (freshMonitor "kustomization")).
  simpl. lia.
Defined.

(** X8. The first poll of a monitor that [NewMonitor] made prints
    whenever the list has an event: the stored fingerprint starts empty
    and no non-empty list has the empty fingerprint.  It prints the two
    newest events, or the only one. *)
Theorem first_poll_prints
    (env : setup_env) (kind name namespace : string) (m : Monitor)
    (Items : list Event) :
  NewMonitor env kind name namespace = inl m →
  Items ≠ [] →
  checkEvents (ListOk Items) m
    = (set_lastHash m (eventsHash Items),
       PrintEvent <$> reverse (lastN 2 Items))
  ∧ (checkEvents (ListOk Items) m).2 ≠ [].
Proof.
  intros Hnew Hne.
  assert (lastHash m = "") as Hm.
  { revert Hnew. unfold NewMonitor.
    destruct (getKubeConfig _ _); [|done].
    destruct (newClientset _ _); [done|].
    destruct (newDynamicClient _ _); [done|]. by intros [= <-]. }
  assert (eventsHash Items ≠ lastHash m) as Hh.
  { rewrite Hm. by apply eventsHash_nonempty. }
  rewrite checkEvents_changed by done. split; [done|].
  by apply shown_nonempty.
Qed.

Lemma first_poll_prints_witness :
  checkEvents (ListOk [ mkEvent "Progressing" "Normal" "Reconciling" ])
    (freshMonitor "kustomization")
  = (set_lastHash (freshMonitor "kustomization")
       (eventsHash [ mkEvent "Progressing" "Normal" "Reconciling" ]),
     PrintEvent <$>
       reverse (lastN 2 [ mkEvent "Progressing" "Normal" "Reconciling" ]))
  ∧ (checkEvents (ListOk [ mkEvent "Progressing" "Normal" "Reconciling" ])
       (freshMonitor "kustomization")).2 ≠ [].
Proof.
  apply (first_poll_prints
    {| inClusterConfig := ConfigErr (ErrClient "not in a cluster");
       kubeconfigFile := ConfigOk "https://127.0.0.1:6443";
       newClientset := λ _, None; newDynamicClient := λ _, None |}
    "kustomization" "podinfo" "flux-system").
  - reflexivity.
  - discriminate.
Defined.

(** X9. Only the last fingerprint is remembered: when the events go from
    one list to another of a different fingerprint and back, the third
    poll prints the first list's newest events again. *)
Theorem checkEvents_reprints_after_revert
    (m : Monitor) (Items1 Items2 : list Event) :
  Items1 ≠ [] → Items2 ≠ [] →
  eventsHash Items1 ≠ eventsHash Items2 →
  (checkEvents (ListOk Items1)
     (checkEvents (ListOk Items2)
        (checkEvents (ListOk Items1) m).1).1).2
  = PrintEvent <$> reverse (lastN 2 Items1)
  ∧ (checkEvents (ListOk Items1)
       (checkEvents (ListOk Items2)
          (checkEvents (ListOk Items1) m).1).1).2 ≠ [].
Proof.
  intros Hne1 Hne2 Hh.
  rewrite (checkEvents_changed Items1);
    [|done|by rewrite checkEvents_stores].
  split; [done|]. by apply shown_nonempty.
Qed.

Lemma checkEvents_reprints_after_revert_witness :
  (checkEvents (ListOk [ mkEvent "Progressing" "Normal" "Reconciling" ])
     (checkEvents (ListOk [ mkEvent "Failed" "Warning" "apply failed" ])
        (checkEvents (ListOk [ mkEvent "Progressing" "Normal" "Reconciling" ])
           (freshMonitor "kustomization")).1).1).2
  = PrintEvent <$>
      reverse (lastN 2 [ mkEvent "Progressing" "Normal" "Reconciling" ])
  ∧ (checkEvents (ListOk [ mkEvent "Progressing" "Normal" "Reconciling" ])
       (checkEvents (ListOk [ mkEvent "Failed" "Warning" "apply failed" ])
          (checkEvents (ListOk [ mkEvent "Progressing" "Normal" "Reconciling" ])
             (freshMonitor "kustomization")).1).1).2 ≠ [].
Proof.
  apply (checkEvents_reprints_after_revert (freshMonitor "kustomization"));
    discriminate.
Defined.

(** X10. The fingerprint reads three events and the display two: when a
    poll differs from the one before in fingerprint but not in its two
    newest events, it prints those same two events once more. *)
Theorem checkEvents_repeats_shown_pair
    (m : Monitor) (Items1 Items2 : list Event) :
  Items1 ≠ [] →
  lastN 2 Items1 = lastN 2 Items2 →
  eventsHash Items1 ≠ eventsHash Items2 →
  (checkEvents (ListOk Items2) (checkEvents (ListOk Items1) m).1).2
  = PrintEvent <$> reverse (lastN 2 Items1)
  ∧ (eventsHash Items1 ≠ lastHash m →
     (checkEvents (ListOk Items2) (checkEvents (ListOk Items1) m).1).2
     = (checkEvents (ListOk Items1) m).2).
Proof.
  intros Hne1 Hlast Hh.
  assert (Items2 ≠ []) as Hne2.
  { intros ->. destruct Items1 as [|e1 [|e2 Items1]]; [done|done|].
    apply (f_equal length) in Hlast. unfold lastN in Hlast.
    rewrite length_drop in Hlast. simpl in Hlast. lia. }
  rewrite (checkEvents_changed Items2);
    [|done|by rewrite checkEvents_stores]. cbn [snd].
  rewrite <- Hlast. split; [done|].
  intros Hm. by rewrite (checkEvents_changed Items1).
Qed.

Lemma checkEvents_repeats_shown_pair_witness :
  (checkEvents
     (ListOk [ mkEvent "Progressing" "Normal" "retry 2";
               mkEvent "B" "Normal" "two"; mkEvent "C" "Normal" "three" ])
     (checkEvents
        (ListOk [ mkEvent "Progressing" "Normal" "retry 1";
                  mkEvent "B" "Normal" "two"; mkEvent "C" "Normal" "three" ])
        (freshMonitor "kustomization")).1).2
  = (checkEvents
       (ListOk [ mkEvent "Progressing" "Normal" "retry 1";
                 mkEvent "B" "Normal" "two"; mkEvent "C" "Normal" "three" ])
       (freshMonitor "kustomization")).2.
Proof.
  apply (checkEvents_repeats_shown_pair (freshMonitor "kustomization"));
    first [ reflexivity | discriminate ].
Defined.

(** ** The readiness check: errors and what is not read *)

Section readiness_more.

Import Unstructured.

Lemma conditionsLoop_entry_frame (k : string) (v : value)
    (condMap : gmap string value) (rest : list value) :
  k ≠ "type" → k ≠ "status" →
  conditionsLoop (VMap (<[k:=v]> condMap) :: rest)
  = conditionsLoop (VMap condMap :: rest).
Proof.
  intros Ht Hs. simpl. unfold NestedString, NestedFieldNoCopy.
  by rewrite !lookup_insert_ne by done.
Qed.

(** X11. The readiness check reports an error in three cases only: the
    fetch failed, and the error is the fetch's; the document has a
    [status] that is no map; the status has [conditions] that are no
    sequence.  With an error the answer is never ready. *)
Theorem checkResourceReady_error (get : get_result) (e : error) :
  ((checkResourceReady get).2 = Some e ↔
     get = GetErr e
     ∨ (∃ obj v, get = GetOk obj ∧ obj !! "status" = Some v
          ∧ (∀ status, v ≠ VMap status)
          ∧ e = ErrAccessor (NotAMap "status"))
     ∨ (∃ obj status v, get = GetOk obj
          ∧ obj !! "status" = Some (VMap status)
          ∧ status !! "conditions" = Some v
          ∧ (∀ conditions, v ≠ VSlice conditions)
          ∧ e = ErrAccessor (NotASlice "conditions")))
  ∧ ((checkResourceReady get).2 ≠ None → (checkResourceReady get).1 = false).
Proof.
  destruct get as [obj|err].
  2:{ split; [|done]. split.
      - intros [= ->]. by left.
      - intros [[= ->]|[(? & ? & ? & _)|(? & ? & ? & ? & _)]]; done. }
  unfold checkResourceReady, NestedMap, NestedSlice, NestedFieldNoCopy.
  destruct (obj !! "status") as [v|] eqn:Hs.
  2:{ split; [|done]. split; [done|].
      intros [?|[(? & ? & [= <-] & ? & _)|(? & ? & ? & [= <-] & ? & _)]];
        congruence. }
  assert (Hmap : (∀ status, v ≠ VMap status) →
    ∀ r : bool * option error, r = (false, Some (ErrAccessor (NotAMap "status"))) →
    (r.2 = Some e ↔
       GetOk obj = GetErr e
       ∨ (∃ obj0 v0, GetOk obj = GetOk obj0 ∧ obj0 !! "status" = Some v0
            ∧ (∀ status, v0 ≠ VMap status)
            ∧ e = ErrAccessor (NotAMap "status"))
       ∨ (∃ obj0 status v0, GetOk obj = GetOk obj0
            ∧ obj0 !! "status" = Some (VMap status)
            ∧ status !! "conditions" = Some v0
            ∧ (∀ conditions, v0 ≠ VSlice conditions)
            ∧ e = ErrAccessor (NotASlice "conditions")))
    ∧ (r.2 ≠ None → r.1 = false)).
  { intros Hv r ->. split; [|done]. split.
    - intros [= <-]. right. left. by exists obj, v.
    - intros [?|[(? & ? & [= <-] & ? & ? & ->)|(? & st & ? & [= <-] & Hst & _)]];
        [done|done|].
      rewrite Hs in Hst. injection Hst as ->. by destruct (Hv st). }
  destruct v as [| | | | |status]; try (by apply Hmap).
  clear Hmap. simpl.
  destruct (status !! "conditions") as [c|] eqn:Hc.
  2:{ split; [|done]. split; [done|].
      intros [?|[(? & ? & [= <-] & Hst & Hv & _)|(? & st & ? & [= <-] & Hst & Hc' & _)]];
        [done| |].
      - rewrite Hs in Hst. injection Hst as <-. by destruct (Hv status).
      - rewrite Hs in Hst. injection Hst as <-. congruence. }
  assert (Hslice : (∀ conditions, c ≠ VSlice conditions) →
    ∀ r : bool * option error,
    r = (false, Some (ErrAccessor (NotASlice "conditions"))) →
    (r.2 = Some e ↔
       GetOk obj = GetErr e
       ∨ (∃ obj0 v0, GetOk obj = GetOk obj0 ∧ obj0 !! "status" = Some v0
            ∧ (∀ status, v0 ≠ VMap status)
            ∧ e = ErrAccessor (NotAMap "status"))
       ∨ (∃ obj0 status v0, GetOk obj = GetOk obj0
            ∧ obj0 !! "status" = Some (VMap status)
            ∧ status !! "conditions" = Some v0
            ∧ (∀ conditions, v0 ≠ VSlice conditions)
            ∧ e = ErrAccessor (NotASlice "conditions")))
    ∧ (r.2 ≠ None → r.1 = false)).
  { intros Hv r ->. split; [|done]. split.
    - intros [= <-]. right. right. by exists obj, status, c.
    - intros [?|[(? & ? & [= <-] & Hst & Hv' & _)|(? & ? & ? & _ & _ & _ & _ & ->)]];
        [done| |done].
      rewrite Hs in Hst. injection Hst as <-. by destruct (Hv' status). }
  destruct c as [| | | |conditions|]; try (by apply Hslice).
  clear Hslice. simpl. split; [|done]. split; [done|].
  intros [?|[(? & ? & [= <-] & Hst & Hv & _)|(? & st & ? & [= <-] & Hst & Hc' & Hv & _)]];
    [done| |].
  - rewrite Hs in Hst. injection Hst as <-. by destruct (Hv status).
  - rewrite Hs in Hst. injection Hst as <-. rewrite Hc in Hc'.
    injection Hc' as <-. by destruct (Hv conditions).
Qed.

(** X12. Readiness does not depend on where the conditions stand or on
    what else stands among them: when every condition of one document is
    a condition of another and the first is ready, the second is ready,
    with no error. *)
Theorem checkResourceReady_monotone (obj obj' : gmap string value) :
  statusConditions obj ⊆ statusConditions obj' →
  (checkResourceReady (GetOk obj)).1 = true →
  checkResourceReady (GetOk obj') = (true, None).
Proof.
  intros Hsub. rewrite checkResourceReady_conditions, conditionsLoop_true.
  intros (cond & Hin & Hready). apply Hsub in Hin.
  apply list_elem_of_split in Hin as (earlier & later & Hobj').
  rewrite (statusConditions_mid _ _ _ _ Hobj'). f_equal.
  apply conditionsLoop_true. exists cond. split; [|done].
  apply elem_of_app. right. left.
Qed.

Lemma checkResourceReady_monotone_witness :
  checkResourceReady
    (GetOk (document [ condition "Healthy" "False"; VNil;
                       condition "Ready" "True" ]))
  = (true, None).
Proof.
  apply (checkResourceReady_monotone
           (document [ condition "Ready" "True" ])).
  - intros c Hc. apply list_elem_of_singleton in Hc as ->.
    right. right. left.
  - reflexivity.
Defined.

(** X13. The readiness check reads [status.conditions] and, of each
    condition, [type] and [status]; a change of any other field, of the
    document, of its status or of a condition, leaves its answer as it
    is. *)
Theorem checkResourceReady_frame
    (obj : gmap string value) (k : string) (v : value) :
  (k ≠ "status" →
   checkResourceReady (GetOk (<[k:=v]> obj)) = checkResourceReady (GetOk obj))
  ∧ (∀ status,
       k ≠ "conditions" → obj !! "status" = Some (VMap status) →
       checkResourceReady (GetOk (<["status" := VMap (<[k:=v]> status)]> obj))
       = checkResourceReady (GetOk obj))
  ∧ (∀ status earlier condMap later,
       k ≠ "type" → k ≠ "status" →
       obj !! "status" = Some (VMap status) →
       status !! "conditions" = Some (VSlice (earlier ++ VMap condMap :: later)) →
       checkResourceReady
         (GetOk (<["status" :=
                     VMap (<["conditions" :=
                               VSlice (earlier ++ VMap (<[k:=v]> condMap) :: later)]>
                             status)]> obj))
       = checkResourceReady (GetOk obj)).
Proof.
  split; [|split].
  - intros Hk. unfold checkResourceReady, NestedMap, NestedFieldNoCopy.
    by rewrite lookup_insert_ne.
  - intros status Hk Hs.
    unfold checkResourceReady, NestedMap, NestedSlice, NestedFieldNoCopy.
    rewrite lookup_insert_eq, Hs. simpl. by rewrite lookup_insert_ne.
  - intros status earlier condMap later Ht Hst Hs Hc.
    rewrite (checkResourceReady_slice obj status _ Hs Hc).
    rewrite (checkResourceReady_slice _ _
               (earlier ++ VMap (<[k:=v]> condMap) :: later)
               (lookup_insert_eq _ _ _) (lookup_insert_eq _ _ _)).
    f_equal. clear Hc. induction earlier as [|c earlier IH].
    + by apply conditionsLoop_entry_frame.
    + rewrite <- !app_comm_cons. cbn [conditionsLoop]. by rewrite IH.
Qed.

Lemma checkResourceReady_frame_witness :
  checkResourceReady
    (GetOk (<["metadata" := VMap {[ "generation" := VNumber 7 ]}]>
              (document [ condition "Ready" "True" ])))
  = checkResourceReady (GetOk (document [ condition "Ready" "True" ])).
Proof.
  apply (proj1 (checkResourceReady_frame _ "metadata" _)).
  discriminate.
Defined.

End readiness_more.

(** ** The readiness poller: how the wait can end *)

Section poller_more.

Implicit Types (m : Monitor) (world : list wakeup) (fetched : list fetch)
  (gvr : GroupVersionResource).

(** The fetches made so far have no part in how the loop ends. *)
Lemma waitLoop_outcome m gvr deadline world fetched fetched' :
  (waitLoop m gvr deadline world fetched).1
  = (waitLoop m gvr deadline world fetched').1.
Proof.
  revert fetched fetched'.
  induction world as [|[now cause|now get] world IH]; intros f f';
    cbn [waitLoop]; [done..|].
  destruct (now >? deadline)%Z; [done|].
  destruct (checkResourceReady get) as [[] []]; try done; apply IH.
Qed.

Lemma waitLoop_error m gvr deadline world fetched e :
  (waitLoop m gvr deadline world fetched).1 = Returned (Some e) →
  (e = ErrTimeout (kind m)
   ∧ ∃ now get, Tick now get ∈ world ∧ (now > deadline)%Z)
  ∨ (∃ now cause, e = ctxErr cause ∧ CtxDone now cause ∈ world).
Proof.
  revert fetched.
  induction world as [|[now cause|now get] world IH]; intros fetched;
    cbn [waitLoop]; [done| |].
  - intros [= <-]. right. exists now, cause. split; [done|left].
  - assert (Hrest : ∀ f,
      (waitLoop m gvr deadline world f).1 = Returned (Some e) →
      (e = ErrTimeout (kind m)
       ∧ ∃ now0 get0, Tick now0 get0 ∈ Tick now get :: world
                      ∧ (now0 > deadline)%Z)
      ∨ (∃ now0 cause, e = ctxErr cause
                       ∧ CtxDone now0 cause ∈ Tick now get :: world)).
    { intros f [(-> & n & g & Hin & Hn)|(n & c & -> & Hin)]%IH.
      - left. split; [done|]. exists n, g. split; [by right|done].
      - right. exists n, c. split; [done|by right]. }
    destruct (Z.gtb_spec now deadline) as [Hlate|_].
    { intros [= <-]. left. split; [done|]. exists now, get. split; [left|lia]. }
    destruct (checkResourceReady get) as [[] []]; try done; apply Hrest.
Qed.

Lemma waitLoop_success m gvr deadline world fetched0 fetched :
  waitLoop m gvr deadline world fetched0 = (Returned None, fetched) →
  ∃ before now obj after,
    world = before ++ Tick now (GetOk obj) :: after
    ∧ (now ≤ deadline)%Z
    ∧ checkResourceReady (GetOk obj) = (true, None)
    ∧ Forall (λ w, isTick w = true) before
    ∧ (waitLoop m gvr deadline before fetched0).1 = Waiting
    ∧ length fetched = S (length fetched0 + length before).
Proof.
  revert fetched0.
  induction world as [|[now cause|now get] world IH]; intros fetched0;
    cbn [waitLoop]; [done..|].
  destruct (Z.gtb_spec now deadline) as [?|Hnow]; [done|].
  assert (Hrest : ∀ f, length f = S (length fetched0) →
    checkResourceReady get ≠ (true, None) →
    waitLoop m gvr deadline world f = (Returned None, fetched) →
    ∃ before now0 obj after,
      Tick now get :: world = before ++ Tick now0 (GetOk obj) :: after
      ∧ (now0 ≤ deadline)%Z
      ∧ checkResourceReady (GetOk obj) = (true, None)
      ∧ Forall (λ w, isTick w = true) before
      ∧ (waitLoop m gvr deadline before fetched0).1 = Waiting
      ∧ length fetched = S (length fetched0 + length before)).
  { intros f Hf Hget (before & n & obj & after & -> & Hn & Hr & Hb & Hw & Hl)%IH.
    exists (Tick now get :: before), n, obj, after.
    split; [done|]. split; [done|]. split; [done|].
    split; [by constructor|]. split; [|simpl; lia].
    cbn [waitLoop]. destruct (Z.gtb_spec now deadline) as [?|_]; [lia|].
    destruct (checkResourceReady get) as [[] []]; try done;
      by erewrite waitLoop_outcome. }
  destruct (checkResourceReady get) as [[] [err|]] eqn:Hget;
    try (apply Hrest; [rewrite length_app; simpl; lia|done]).
  intros [= Hf]. clear Hrest IH. subst fetched.
  destruct (checkResourceReady_true get) as (obj & -> & _); [by rewrite Hget|].
  exists [], now, obj, world. rewrite length_app. simpl.
  repeat split; [done|done|constructor|lia].
Qed.

Lemma waitLoop_fetch_count m gvr deadline world fetched :
  length (waitLoop m gvr deadline world fetched).2
  ≤ length fetched + length (filter (λ w, isTick w = true) world).
Proof.
  revert fetched.
  induction world as [|[now cause|now get] world IH]; intros fetched;
    cbn [waitLoop].
  - simpl. lia.
  - simpl. lia.
  - rewrite filter_cons_True by done.
    destruct (now >? deadline)%Z; [simpl; lia|].
    pose proof (IH (fetched ++ [{| f_gvr := gvr; f_namespace := namespace m;
                                   f_name := name m |}])) as Hl.
    rewrite length_app in Hl. simpl in Hl.
    destruct (checkResourceReady get) as [[] []]; simpl in *;
      rewrite ?length_app; simpl; lia.
Qed.

Lemma waitLoop_all_late m gvr deadline world fetched :
  (∀ now get, Tick now get ∈ world → (now > deadline)%Z) →
  (waitLoop m gvr deadline world fetched).2 = fetched
  ∧ (waitLoop m gvr deadline world fetched).1 ≠ Returned None.
Proof.
  intros Hlate. destruct world as [|[now cause|now get] world]; [done..|].
  cbn [waitLoop].
  destruct (Z.gtb_spec now deadline) as [_|Hn]; [done|].
  specialize (Hlate now get (list_elem_of_here _ _)). lia.
Qed.

End poller_more.

(** The loop only adds to the fetches it was given. *)
Lemma waitLoop_fetched_prefix
    (m : Monitor) (gvr : GroupVersionResource) (deadline : Z)
    (world : list wakeup) (fetched : list fetch) :
  ∃ rest, (waitLoop m gvr deadline world fetched).2 = fetched ++ rest.
Proof.
  revert fetched.
  induction world as [|[now cause|now get] world IH]; intros fetched;
    cbn [waitLoop]; try (exists []; by rewrite app_nil_r).
  destruct (now >? deadline)%Z; [exists []; by rewrite app_nil_r|].
  destruct (IH (fetched ++ [{| f_gvr := gvr; f_namespace := namespace m;
                               f_name := name m |}])) as [rest Hrest].
  destruct (checkResourceReady get) as [[] []]; cbn [snd];
    try (rewrite Hrest, <- app_assoc; by eexists).
  by eexists.
Qed.

(** C5. The kind of the monitor resolves to fixed coordinates:
    [kustomization], [helmrelease], and both [source] and
    [gitrepository] have the coordinates of the table, and no other kind
    has any.  With a resolved kind [WaitForReady] enters its loop: it
    never returns the unsupported-kind error, it waits when there is no
    wakeup, every status fetch it makes asks for the resolved
    coordinates, and a first tick not after the deadline makes such a
    fetch.  With any other kind it returns the unsupported-kind error at
    once, having fetched nothing. *)
Theorem kind_resolution :
  resolveGVR "kustomization" = Some kustomizations
  ∧ resolveGVR "helmrelease" = Some helmreleases
  ∧ resolveGVR "source" = Some gitrepositories
  ∧ resolveGVR "gitrepository" = Some gitrepositories
  ∧ (∀ k, k ∈ supportedKinds ↔ is_Some (resolveGVR k))
  ∧ (∀ m start timeout world gvr,
       resolveGVR (kind m) = Some gvr →
       (∀ k, (WaitForReady m start timeout world).1
             ≠ Returned (Some (ErrUnsupportedKind k)))
       ∧ WaitForReady m start timeout [] = (Waiting, [])
       ∧ (∀ f, f ∈ (WaitForReady m start timeout world).2 →
            f = {| f_gvr := gvr; f_namespace := namespace m;
                   f_name := name m |})
       ∧ (∀ now get, (now ≤ start + timeout)%Z →
            ∃ rest,
              (WaitForReady m start timeout (Tick now get :: world)).2
              = {| f_gvr := gvr; f_namespace := namespace m;
                   f_name := name m |} :: rest))
  ∧ (∀ m start timeout world,
       kind m ∉ supportedKinds →
       resolveGVR (kind m) = None
       ∧ WaitForReady m start timeout world
         = (Returned (Some (ErrUnsupportedKind (kind m))), [])).
Proof.
  do 4 (split; [reflexivity|]).
  split; [apply resolveGVR_supported|]. split.
  - intros m start timeout world gvr Hk. unfold WaitForReady. rewrite Hk.
    split; [|split; [done|split]].
    + intros k [[[=] _]|(? & [] & [=] & _)]%waitLoop_error.
    + by intros f [?%elem_of_nil|?]%waitLoop_fetches.
    + intros now get Hnow. cbn [waitLoop].
      destruct (Z.gtb_spec now (start + timeout)) as [?|_]; [lia|].
      rewrite app_nil_l.
      destruct (waitLoop_fetched_prefix m gvr (start + timeout) world
                  [{| f_gvr := gvr; f_namespace := namespace m;
                      f_name := name m |}]) as [rest Hrest].
      destruct (checkResourceReady get) as [[] []]; cbn [snd];
        try (rewrite Hrest; by eexists).
      by eexists.
  - intros m start timeout world Hk.
    split; [by apply resolveGVR_unsupported|by apply WaitForReady_unsupported].
Qed.

Lemma kind_resolution_witness :
  (∃ rest,
     (WaitForReady (freshMonitor "gitrepository") 0 300
        [ Tick 2 (GetOk ∅);
          Tick 4 (GetOk (document [ condition "Ready" "True" ])) ]).2
     = {| f_gvr := gitrepositories; f_namespace := "flux-system";
          f_name := "podinfo" |} :: rest)
  ∧ resolveGVR "deployment" = None
  ∧ WaitForReady (freshMonitor "deployment") 0 300
      [ Tick 2 (GetOk ∅); Tick 4 (GetOk ∅) ]
    = (Returned (Some (ErrUnsupportedKind "deployment")), []).
Proof.
  split.
  - apply (proj2 (proj2 (proj2
      (proj1 (proj2 (proj2 (proj2 (proj2 (proj2 kind_resolution)))))
         (freshMonitor "gitrepository") 0%Z 300%Z
         [ Tick 4 (GetOk (document [ condition "Ready" "True" ])) ]
         gitrepositories eq_refl)))
      2%Z (GetOk ∅)).
    lia.
  - apply (proj2 (proj2 (proj2 (proj2 (proj2 (proj2 kind_resolution)))))
             (freshMonitor "deployment")).
    apply (bool_decide_unpack _). vm_compute. exact I.
Defined.


(** X14. [WaitForReady] returns one of four errors and no other: the
    unsupported-kind error, for a kind outside the table; the timeout
    error, only when some tick came after the deadline; the context's
    error, only when the context was done.  An error of a status fetch
    or of reading the document is never returned. *)
Theorem WaitForReady_errors
    (m : Monitor) (start timeout : Z) (world : list wakeup) (e : error) :
  (WaitForReady m start timeout world).1 = Returned (Some e) →
  ((e = ErrUnsupportedKind (kind m) ∧ kind m ∉ supportedKinds)
   ∨ (e = ErrTimeout (kind m)
      ∧ ∃ now get, Tick now get ∈ world ∧ (now > start + timeout)%Z)
   ∨ (∃ now cause, e = ctxErr cause ∧ CtxDone now cause ∈ world))
  ∧ (∀ msg, e ≠ ErrClient msg)
  ∧ (∀ a, e ≠ ErrAccessor a).
Proof.
  intros He.
  assert (Hcases :
    (e = ErrUnsupportedKind (kind m) ∧ kind m ∉ supportedKinds)
    ∨ (e = ErrTimeout (kind m)
       ∧ ∃ now get, Tick now get ∈ world ∧ (now > start + timeout)%Z)
    ∨ (∃ now cause, e = ctxErr cause ∧ CtxDone now cause ∈ world)).
  { revert He. unfold WaitForReady.
    destruct (resolveGVR (kind m)) as [gvr|] eqn:Hk.
    - intros [H|H]%waitLoop_error; [right; by left|right; by right].
    - intros [= <-]. left. split; [done|].
      intros [gvr Hgvr]%resolveGVR_supported. congruence. }
  split; [done|].
  destruct Hcases as [[-> _]|[[-> _]|(? & [] & -> & _)]]; done.
Qed.

Lemma WaitForReady_errors_witness :
  ((ErrTimeout "source" = ErrUnsupportedKind "source"
    ∧ "source" ∉ supportedKinds)
   ∨ (ErrTimeout "source" = ErrTimeout "source"
      ∧ ∃ now get,
          Tick now get
            ∈ [ Tick 2 (GetErr (ErrClient "connection refused"));
                Tick 12 (GetOk ∅) ]
          ∧ (now > 0 + 10)%Z)
   ∨ (∃ now cause, ErrTimeout "source" = ctxErr cause
        ∧ CtxDone now cause
            ∈ [ Tick 2 (GetErr (ErrClient "connection refused"));
                Tick 12 (GetOk ∅) ]))
  ∧ (∀ msg, ErrTimeout "source" ≠ ErrClient msg)
  ∧ (∀ a, ErrTimeout "source" ≠ ErrAccessor a).
Proof.
  apply (WaitForReady_errors (freshMonitor "source") 0 10
           [ Tick 2 (GetErr (ErrClient "connection refused"));
             Tick 12 (GetOk ∅) ]).
  reflexivity.
Defined.

(** X15. A tick not after the deadline whose check fails, by a fetch
    error or a malformed document, or finds the resource not ready, is
    absorbed: the wait ends as it would without that tick. *)
Theorem WaitForReady_absorbs_tick
    (m : Monitor) (start timeout now : Z) (get : get_result)
    (before after : list wakeup) :
  (now ≤ start + timeout)%Z →
  checkResourceReady get ≠ (true, None) →
  (WaitForReady m start timeout (before ++ Tick now get :: after)).1
  = (WaitForReady m start timeout (before ++ after)).1.
Proof.
  intros Hnow Hget. unfold WaitForReady.
  destruct (resolveGVR (kind m)) as [gvr|]; [|done].
  generalize (@nil fetch).
  induction before as [|[n c|n g] before IH]; intros fetched.
  - rewrite !app_nil_l. cbn [waitLoop].
    destruct (Z.gtb_spec now (start + timeout)) as [?|_]; [lia|].
    destruct (checkResourceReady get) as [[] []]; try done;
      apply waitLoop_outcome.
  - done.
  - rewrite <- !app_comm_cons. cbn [waitLoop].
    destruct (n >? start + timeout)%Z; [done|].
    destruct (checkResourceReady g) as [[] []]; try done; apply IH.
Qed.

Lemma WaitForReady_absorbs_tick_witness :
  (WaitForReady (freshMonitor "kustomization") 0 10
     ([ Tick 2 (GetOk (document [ condition "Ready" "False" ])) ]
        ++ Tick 4 (GetOk {[ "status" := Unstructured.VNil ]})
        :: [ Tick 6 (GetOk (document [ condition "Ready" "True" ])) ])).1
  = (WaitForReady (freshMonitor "kustomization") 0 10
       ([ Tick 2 (GetOk (document [ condition "Ready" "False" ])) ]
          ++ [ Tick 6 (GetOk (document [ condition "Ready" "True" ])) ])).1.
Proof.
  apply (WaitForReady_absorbs_tick (freshMonitor "kustomization") 0 10 4).
  - lia.
  - discriminate.
Defined.

(** X16. [WaitForReady] returns success only by a fetch: the wakeups up
    to the return are ticks, none after the deadline has ended the wait,
    and the last of them fetched a document with a [Ready]/[True]
    condition; one status fetch was made for each of these ticks. *)
Theorem WaitForReady_success_only_if
    (m : Monitor) (start timeout : Z) (world : list wakeup) :
  (WaitForReady m start timeout world).1 = Returned None →
  ∃ before now obj after,
    world = before ++ Tick now (GetOk obj) :: after
    ∧ (now ≤ start + timeout)%Z
    ∧ (∃ cond, cond ∈ statusConditions obj ∧ isReadyCondition cond)
    ∧ Forall (λ w, isTick w = true) before
    ∧ (WaitForReady m start timeout before).1 = Waiting
    ∧ length (WaitForReady m start timeout world).2 = S (length before).
Proof.
  unfold WaitForReady.
  destruct (resolveGVR (kind m)) as [gvr|]; [|done].
  destruct (waitLoop m gvr (start + timeout) world []) as [o fetched] eqn:Hw.
  simpl. intros ->.
  apply waitLoop_success in Hw
    as (before & now & obj & after & -> & Hnow & Hr & Hb & Hw & Hl).
  exists before, now, obj, after. repeat split; try done.
  apply conditionsLoop_true. rewrite <- checkResourceReady_conditions.
  by rewrite Hr.
Qed.

Lemma WaitForReady_success_only_if_witness :
  ∃ before now obj after,
    [ Tick 2 (GetErr (ErrClient "connection refused"));
      Tick 4 (GetOk (document [ condition "Ready" "True" ]));
      CtxDone 6 CtxCanceled ]
    = before ++ Tick now (GetOk obj) :: after
    ∧ (now ≤ 0 + 10)%Z
    ∧ (∃ cond, cond ∈ statusConditions obj ∧ isReadyCondition cond)
    ∧ Forall (λ w, isTick w = true) before
    ∧ (WaitForReady (freshMonitor "helmrelease") 0 10 before).1 = Waiting
    ∧ length (WaitForReady (freshMonitor "helmrelease") 0 10
                [ Tick 2 (GetErr (ErrClient "connection refused"));
                  Tick 4 (GetOk (document [ condition "Ready" "True" ]));
                  CtxDone 6 CtxCanceled ]).2
      = S (length before).
Proof.
  apply (WaitForReady_success_only_if (freshMonitor "helmrelease") 0 10).
  reflexivity.
Defined.

(** X17. [WaitForReady] makes at most one status fetch for each tick.
    When every tick comes after the deadline, as with a timeout that is
    over at entry, it makes no fetch at all and never returns success. *)
Theorem WaitForReady_fetch_count
    (m : Monitor) (start timeout : Z) (world : list wakeup) :
  length (WaitForReady m start timeout world).2
    ≤ length (filter (λ w, isTick w = true) world)
  ∧ ((∀ now get, Tick now get ∈ world → (now > start + timeout)%Z) →
     (WaitForReady m start timeout world).2 = []
     ∧ (WaitForReady m start timeout world).1 ≠ Returned None).
Proof.
  unfold WaitForReady. destruct (resolveGVR (kind m)) as [gvr|].
  - split; [apply (waitLoop_fetch_count _ _ _ _ [])|].
    apply waitLoop_all_late.
  - split; [simpl; lia|done].
Qed.

Lemma WaitForReady_fetch_count_witness :
  (WaitForReady (freshMonitor "kustomization") 100 0
     [ Tick 102 (GetOk (document [ condition "Ready" "True" ])) ]).2 = []
  ∧ (WaitForReady (freshMonitor "kustomization") 100 0
       [ Tick 102 (GetOk (document [ condition "Ready" "True" ])) ]).1
    ≠ Returned None.
Proof.
  apply (proj2 (WaitForReady_fetch_count (freshMonitor "kustomization") 100 0
                  [ Tick 102 (GetOk (document [ condition "Ready" "True" ])) ])).
  intros now get Hin. apply list_elem_of_singleton in Hin as [= -> _]. lia.
Defined.

(** ** Setting up and the command line *)

Section command_line.

Implicit Types (f : Flags) (env : main_env) (m : Monitor).

Lemma NewMonitor_inl senv k n ns m :
  NewMonitor senv k n ns = inl m →
  m = {| kind := k; name := n; namespace := ns; lastHash := "";
         ready := false |}
  ∧ ∃ host,
      getKubeConfig (inClusterConfig senv) (kubeconfigFile senv) = ConfigOk host
      ∧ newClientset senv host = None ∧ newDynamicClient senv host = None.
Proof.
  unfold NewMonitor.
  destruct (getKubeConfig _ _) as [host|]; [|done].
  destruct (newClientset senv host) eqn:Hc; [done|].
  destruct (newDynamicClient senv host) eqn:Hd; [done|].
  intros [= <-]. split; [done|]. by exists host.
Qed.

Lemma startMonitor_Some f senv m :
  (startMonitor f senv).1 = Some m →
  monitoredKind (flag_kind f) = true
  ∧ NewMonitor senv (flag_kind f) (flag_name f) (flag_namespace f) = inl m
  ∧ (startMonitor f senv).2 = [StartWatch m].
Proof.
  unfold startMonitor. destruct (monitoredKind (flag_kind f)); [|done].
  destruct (NewMonitor _ _ _ _) as [m'|e]; [|done]. by intros [= ->].
Qed.

Lemma startMonitor_None f senv :
  (startMonitor f senv).1 = None →
  ∀ a, a ∈ (startMonitor f senv).2 → ∃ text, a = Stderr text.
Proof.
  unfold startMonitor. destruct (monitoredKind (flag_kind f)).
  - destruct (NewMonitor _ _ _ _) as [m'|e]; [done|].
    intros _ a ->%list_elem_of_singleton. eauto.
  - by intros _ a ?%elem_of_nil.
Qed.

Lemma monitoredKind_resolves k :
  monitoredKind k = true → is_Some (resolveGVR k).
Proof.
  unfold monitoredKind. rewrite !orb_true_iff, !bool_decide_eq_true.
  intros [[->| ->]| ->]; eexists; reflexivity.
Qed.

(** The error of a wait on a monitored kind prints as no
    unsupported-kind error. *)
Lemma wait_error_text m start timeout world e k :
  is_Some (resolveGVR (kind m)) →
  (WaitForReady m start timeout world).1 = Returned (Some e) →
  Error e ≠ Error (ErrUnsupportedKind k).
Proof.
  intros [gvr Hk]. unfold WaitForReady. rewrite Hk.
  intros [[-> _]|(? & [] & -> & _)]%waitLoop_error; discriminate.
Qed.

End command_line.

(** X18. [NewMonitor] gives a monitor exactly when one of the two
    configuration sources answers, the in-cluster one first, and both
    clients can be built on that configuration; the monitor then has the
    given kind, name and namespace and an empty fingerprint.  When both
    sources fail, the error wraps the kubeconfig file's error, not the
    in-cluster one. *)
Theorem NewMonitor_result
    (env : setup_env) (kind name namespace : string) :
  (∀ m, NewMonitor env kind name namespace = inl m ↔
     m = {| kind := kind; name := name; namespace := namespace;
            lastHash := ""; ready := false |}
     ∧ ∃ host,
         (inClusterConfig env = ConfigOk host
          ∨ (∃ err, inClusterConfig env = ConfigErr err)
            ∧ kubeconfigFile env = ConfigOk host)
         ∧ newClientset env host = None
         ∧ newDynamicClient env host = None)
  ∧ (∀ cause, NewMonitor env kind name namespace = inr (FailedKubeconfig cause) ↔
       (∃ err, inClusterConfig env = ConfigErr err)
       ∧ kubeconfigFile env = ConfigErr cause).
Proof.
  unfold NewMonitor, getKubeConfig. split.
  - intros m. split.
    + destruct (inClusterConfig env) as [host|err] eqn:Hin.
      * destruct (newClientset env host) eqn:Hc; [done|].
        destruct (newDynamicClient env host) eqn:Hd; [done|].
        intros [= <-]. split; [done|]. exists host. by split; [left|].
      * destruct (kubeconfigFile env) as [host|err'] eqn:Hf; [|done].
        destruct (newClientset env host) eqn:Hc; [done|].
        destruct (newDynamicClient env host) eqn:Hd; [done|].
        intros [= <-]. split; [done|]. exists host. split; [|done].
        right. split; [by exists err|done].
    + intros (-> & host & [Hin|[[err Hin] Hf]] & Hc & Hd).
      * by rewrite Hin, Hc, Hd.
      * by rewrite Hin, Hf, Hc, Hd.
  - intros cause. split.
    + destruct (inClusterConfig env) as [host|err] eqn:Hin.
      * destruct (newClientset env host); [done|].
        by destruct (newDynamicClient env host).
      * destruct (kubeconfigFile env) as [host|err'] eqn:Hf.
        -- destruct (newClientset env host); [done|].
           by destruct (newDynamicClient env host).
        -- intros [= <-]. split; [by exists err|done].
    + intros ([err Hin] & Hf). by rewrite Hin, Hf.
Qed.

Lemma flags_given (f : Flags) :
  bool_decide (flag_kind f = "") || bool_decide (flag_name f = "") = false →
  flag_kind f ≠ "" ∧ flag_name f ≠ "".
Proof. by rewrite orb_false_iff, !bool_decide_eq_false. Qed.

Lemma flags_missing (f : Flags) :
  bool_decide (flag_kind f = "") || bool_decide (flag_name f = "") = true →
  flag_kind f = "" ∨ flag_name f = "".
Proof. by rewrite orb_true_iff, !bool_decide_eq_true. Qed.

(** The paths through [main]. *)
Ltac main_cases f env :=
  unfold main;
  destruct (bool_decide (flag_kind f = "") || bool_decide (flag_name f = ""))
    eqn:Hreq;
  [|destruct (startMonitor f (setup env)) as [[m|] started] eqn:Hsm;
    destruct (run env) as [|code|msg] eqn:Hrun;
    try (destruct (flag_wait f) eqn:Hwait;
         [destruct (WaitForReady m (waitStart env) (flag_timeout f)
                      (waitWorld env)) as [[[e|]|] fetched] eqn:Hw|])].

(** X19. [main] returns, with exit status 0, exactly when both flags are
    given, the flux command succeeds, and either no wait is asked for,
    or no monitor was started, or the wait returns success.  Every other
    end is an exit with status 1 or with the exit code of the flux
    command, or [main] still waiting. *)
Theorem main_returns_iff (f : Flags) (env : main_env) :
  ((main f env).2 = Return ↔
     flag_kind f ≠ "" ∧ flag_name f ≠ "" ∧ run env = RunOk
     ∧ (flag_wait f = false
        ∨ (startMonitor f (setup env)).1 = None
        ∨ ∃ m, (startMonitor f (setup env)).1 = Some m
             ∧ (WaitForReady m (waitStart env) (flag_timeout f)
                  (waitWorld env)).1 = Returned None))
  ∧ (∀ code, (main f env).2 = Exit code →
       code = 1%Z ∨ run env = RunExitError code).
Proof.
  main_cases f env; cbn [fst snd]; (split; [split|]).
  all: try (intros c [= <-]; auto; fail).
  all: try (intros c [=]; fail).
  all: try (intros [=]; fail).
  all: try (intros _; apply flags_given in Hreq as [? ?];
            repeat (split; [done|]);
            first [ by left | by right; left
                  | right; right; exists m; by rewrite ?Hw ]; fail).
  all: intros (Hk & Hn & Hr & Hcase); try done.
  all: try (apply flags_missing in Hreq; by destruct Hreq).
  all: destruct Hcase as [?|[?|(m' & [= <-] & Hw')]]; try done.
  all: rewrite Hw in Hw'; done.
Qed.

Lemma wait_success_ready
    (m : Monitor) (start timeout : Z) (world : list wakeup) :
  (WaitForReady m start timeout world).1 = Returned None →
  ∃ before now obj after,
    world = before ++ Tick now (GetOk obj) :: after
    ∧ (now ≤ start + timeout)%Z
    ∧ (∃ cond, cond ∈ statusConditions obj ∧ isReadyCondition cond).
Proof.
  unfold WaitForReady.
  destruct (resolveGVR (kind m)) as [gvr|]; [|done].
  destruct (waitLoop m gvr (start + timeout) world []) as [o fetched] eqn:Hw.
  simpl. intros ->.
  apply waitLoop_success in Hw
    as (before & now & obj & after & -> & Hnow & Hr & _).
  exists before, now, obj, after. repeat split; try done.
  apply conditionsLoop_true. rewrite <- checkResourceReady_conditions.
  by rewrite Hr.
Qed.

(** Membership in a trace of [main], piece by piece. *)
Ltac trace_in H :=
  repeat match type of H with
  | _ ∈ _ ++ _ => apply elem_of_app in H as [H|H]
  | _ ∈ _ :: _ => apply elem_of_cons in H as [H|H]
  | _ ∈ [] => by apply elem_of_nil in H
  | _ ∈ Fetch <$> _ => apply list_elem_of_fmap in H as (? & H & ?)
  | _ ∈ deferred _ => unfold deferred in H
  | _ ∈ match ?x with _ => _ end => destruct x
  end.

Lemma started_actions (f : Flags) (senv : setup_env) (a : action) :
  a ∈ (startMonitor f senv).2 →
  (∃ text, a = Stderr text) ∨ (∃ m, a = StartWatch m).
Proof.
  unfold startMonitor. destruct (monitoredKind (flag_kind f)).
  - destruct (NewMonitor _ _ _ _) as [m|e];
      intros ->%list_elem_of_singleton; eauto.
  - by intros ?%elem_of_nil.
Qed.

(** X20. [main] prints the success message only after a wait that
    fetched a document with a [Ready]/[True] condition at a tick not
    after the deadline: the flux command has succeeded, the wait was
    asked for, and [main] then returns. *)
Theorem main_success_needs_ready
    (f : Flags) (env : main_env) (k n : string) :
  PrintSuccess k n ∈ (main f env).1 →
  k = flag_kind f ∧ n = flag_name f
  ∧ (main f env).2 = Return ∧ flag_wait f = true ∧ run env = RunOk
  ∧ ∃ before now obj after,
      waitWorld env = before ++ Tick now (GetOk obj) :: after
      ∧ (now ≤ waitStart env + flag_timeout f)%Z
      ∧ (∃ cond, cond ∈ statusConditions obj ∧ isReadyCondition cond).
Proof.
  assert (Hstart : PrintSuccess k n ∉ (startMonitor f (setup env)).2).
  { by intros [[? ?]|[? ?]]%started_actions. }
  main_cases f env; cbn [fst snd]; intros Hin; trace_in Hin;
    try done; try (by destruct (Hstart Hin)).
  injection Hin as -> ->. repeat (split; [done|]).
  apply (wait_success_ready m). by rewrite Hw.
Qed.

Lemma main_success_needs_ready_witness :
  "helmrelease" = "helmrelease" ∧ "podinfo" = "podinfo"
  ∧ (main
       {| flag_kind := "helmrelease"; flag_name := "podinfo";
          flag_namespace := "apps"; flag_wait := true; flag_timeout := 300 |}
       {| setup :=
            {| inClusterConfig := ConfigOk "https://10.0.0.1";
               kubeconfigFile := ConfigErr (ErrClient "no such file");
               newClientset := λ _, None; newDynamicClient := λ _, None |};
          run := RunOk; waitStart := 0;
          waitWorld :=
            [ Tick 2 (GetOk (document [ condition "Ready" "False" ]));
              Tick 4 (GetOk (document [ condition "Ready" "True" ])) ] |}).2
    = Return
  ∧ true = true ∧ RunOk = RunOk
  ∧ ∃ before now obj after,
      [ Tick 2 (GetOk (document [ condition "Ready" "False" ]));
        Tick 4 (GetOk (document [ condition "Ready" "True" ])) ]
      = before ++ Tick now (GetOk obj) :: after
      ∧ (now ≤ 0 + 300)%Z
      ∧ (∃ cond, cond ∈ statusConditions obj ∧ isReadyCondition cond).
Proof.
  apply (main_success_needs_ready
    {| flag_kind := "helmrelease"; flag_name := "podinfo";
       flag_namespace := "apps"; flag_wait := true; flag_timeout := 300 |}
    {| setup :=
         {| inClusterConfig := ConfigOk "https://10.0.0.1";
            kubeconfigFile := ConfigErr (ErrClient "no such file");
            newClientset := λ _, None; newDynamicClient := λ _, None |};
       run := RunOk; waitStart := 0;
       waitWorld :=
         [ Tick 2 (GetOk (document [ condition "Ready" "False" ]));
           Tick 4 (GetOk (document [ condition "Ready" "True" ])) ] |}).
  vm_compute. do 6 right. left.
Defined.

Lemma wait_fetches
    (m : Monitor) (start timeout : Z) (world : list wakeup)
    (gvr : GroupVersionResource) (fch : fetch) :
  resolveGVR (kind m) = Some gvr →
  fch ∈ (WaitForReady m start timeout world).2 →
  fch = {| f_gvr := gvr; f_namespace := namespace m; f_name := name m |}.
Proof.
  intros Hk. unfold WaitForReady. rewrite Hk.
  by intros [?%elem_of_nil|?]%waitLoop_fetches.
Qed.

Lemma started_monitor (f : Flags) (senv : setup_env) (m : Monitor) :
  (startMonitor f senv).1 = Some m →
  kind m = flag_kind f ∧ name m = flag_name f
  ∧ namespace m = flag_namespace f
  ∧ is_Some (resolveGVR (flag_kind f))
  ∧ flag_kind f ≠ "gitrepository".
Proof.
  intros (Hk & Hnew & _)%startMonitor_Some.
  apply NewMonitor_inl in Hnew as [-> _]. repeat (split; [done|]).
  split; [by apply monitoredKind_resolves|].
  intros Heq. by rewrite Heq in Hk.
Qed.

(** X21. Every status fetch [main] makes asks for the coordinates of the
    kind given on the command line, in the given namespace and under the
    given name, and that kind is never [gitrepository]: [main] starts no
    monitor for it.  The error [main] prints after a wait is never the
    unsupported-kind error. *)
Theorem main_wait_is_supported (f : Flags) (env : main_env) :
  (∀ fch, Fetch fch ∈ (main f env).1 →
     resolveGVR (flag_kind f) = Some (f_gvr fch)
     ∧ f_namespace fch = flag_namespace f
     ∧ f_name fch = flag_name f
     ∧ flag_kind f ≠ "gitrepository")
  ∧ (∀ k, PrintError ("Reconciliation failed or timed out: "
                      +:+ Error (ErrUnsupportedKind k)) ∉ (main f env).1).
Proof.
  assert (Hstart : ∀ a, a ∈ (startMonitor f (setup env)).2 →
                        (∀ fch, a ≠ Fetch fch) ∧ (∀ text, a ≠ PrintError text)).
  { by intros a [[? ->]|[? ->]]%started_actions. }
  assert (Hmon : ∀ m, (startMonitor f (setup env)).1 = Some m →
    kind m = flag_kind f ∧ name m = flag_name f
    ∧ namespace m = flag_namespace f
    ∧ is_Some (resolveGVR (flag_kind f))
    ∧ flag_kind f ≠ "gitrepository") by apply started_monitor.
  split.
  - intros fch.
    main_cases f env; cbn [fst snd]; intros Hin; trace_in Hin; try done;
      try (by destruct (proj1 (Hstart _ Hin) fch)).
    all: injection Hin as <-.
    all: destruct (Hmon m eq_refl) as (Hk & Hn & Hns & [gvr Hgvr] & Hgit).
    all: rewrite <- Hk in Hgvr.
    all: pose proof (wait_fetches m (waitStart env) (flag_timeout f)
                       (waitWorld env) gvr fch Hgvr) as Heq.
    all: rewrite Hw in Heq.
    all: match goal with Hf : _ ∈ _ |- _ => specialize (Heq Hf) end.
    all: rewrite Heq; simpl.
    all: rewrite Hk in Hgvr; done.
  - intros k.
    main_cases f env; cbn [fst snd]; intros Hin; trace_in Hin; try done;
      try (exact (proj2 (Hstart _ Hin) _ eq_refl)).
    injection Hin as Htext. apply (inj (String.app _)) in Htext.
    destruct (Hmon m eq_refl) as (Hk & _ & _ & Hgvr & _).
    rewrite <- Hk in Hgvr. symmetry in Htext. revert Htext.
    apply (wait_error_text m (waitStart env) (flag_timeout f) (waitWorld env));
      [done|by rewrite Hw].
Qed.

(** X22. Without a monitor, which is the case for every kind but
    [kustomization], [helmrelease] and [source], [gitrepository] among
    them, and whenever [NewMonitor] fails, the wait flag and the
    readiness of the resource have no effect on a run with a given
    result of the flux command: [main] only warns, prints and runs the
    command, and ends by the command's result, returning as soon as the
    command succeeds. *)
Theorem main_without_monitor (f : Flags) (env : main_env) :
  monitoredKind (flag_kind f) = false
  ∨ (∃ e, NewMonitor (setup env) (flag_kind f) (flag_name f) (flag_namespace f)
          = inr e) →
  (∀ wait start world,
     main f env
     = main {| flag_kind := flag_kind f; flag_name := flag_name f;
               flag_namespace := flag_namespace f; flag_wait := wait;
               flag_timeout := flag_timeout f |}
            {| setup := setup env; run := run env; waitStart := start;
               waitWorld := world |})
  ∧ (∀ a, a ∈ (main f env).1 →
       (∃ text, a = Stderr text) ∨ (∃ args, a = PrintCommand args)
       ∨ (∃ args, a = RunCommand args) ∨ a = CancelContext)
  ∧ (flag_kind f ≠ "" → flag_name f ≠ "" → run env = RunOk →
     (main f env).2 = Return).
Proof.
  intros Hno.
  assert (Hnone : ∀ wait,
    startMonitor {| flag_kind := flag_kind f; flag_name := flag_name f;
                    flag_namespace := flag_namespace f; flag_wait := wait;
                    flag_timeout := flag_timeout f |} (setup env)
    = (None, (startMonitor f (setup env)).2)).
  { intros wait. unfold startMonitor. simpl.
    destruct Hno as [->|[e ->]]; [done|]. by destruct (monitoredKind _). }
  assert (Hf : startMonitor f (setup env) = (None, (startMonitor f (setup env)).2)).
  { destruct f. apply Hnone. }
  split; [|split].
  - intros wait start world. unfold main. simpl.
    rewrite Hnone, Hf. simpl.
    destruct (_ || _); [done|]. by destruct (run env).
  - intros a. unfold main. rewrite Hf.
    destruct (_ || _); cbn [fst snd].
    { intros ->%list_elem_of_singleton. left. eauto. }
    destruct (run env); cbn [fst snd]; intros Hin; trace_in Hin;
      try (by apply started_actions in Hin as [?|[m Hm]];
           [left|rewrite Hf in *]); subst; eauto 10.
    all: apply startMonitor_None in Hin; [by left|by rewrite Hf].
  - intros Hk Hn Hrun. unfold main. rewrite Hf, Hrun.
    by rewrite !bool_decide_false by done.
Qed.

Lemma main_without_monitor_witness :
  (main {| flag_kind := "gitrepository"; flag_name := "repo";
           flag_namespace := "flux-system"; flag_wait := true;
           flag_timeout := 300 |}
        {| setup :=
             {| inClusterConfig := ConfigOk "https://10.0.0.1";
                kubeconfigFile := ConfigErr (ErrClient "no such file");
                newClientset := λ _, None; newDynamicClient := λ _, None |};
           run := RunOk; waitStart := 0; waitWorld := [] |}).2
  = Return.
Proof.
  apply (proj2 (proj2 (main_without_monitor
    {| flag_kind := "gitrepository"; flag_name := "repo";
       flag_namespace := "flux-system"; flag_wait := true;
       flag_timeout := 300 |}
    {| setup :=
         {| inClusterConfig := ConfigOk "https://10.0.0.1";
            kubeconfigFile := ConfigErr (ErrClient "no such file");
            newClientset := λ _, None; newDynamicClient := λ _, None |};
       run := RunOk; waitStart := 0; waitWorld := [] |}
    (or_introl eq_refl)))).
  - discriminate.
  - discriminate.
  - reflexivity.
Defined.

(** X23. The deferred calls of [main], stopping the monitor and
    cancelling the context, run only when [main] returns: on every exit
    path, a failed command or a failed wait, they are skipped, and the
    monitor is stopped only if one was started. *)
Theorem main_deferred_only_on_return (f : Flags) (env : main_env) :
  (CancelContext ∈ (main f env).1 ↔ (main f env).2 = Return)
  ∧ (StopMonitor ∈ (main f env).1 ↔
       (main f env).2 = Return ∧ is_Some (startMonitor f (setup env)).1).
Proof.
  assert (Hstart : ∀ a, a ∈ (startMonitor f (setup env)).2 →
                        a ≠ CancelContext ∧ a ≠ StopMonitor).
  { by intros a [[? ->]|[? ->]]%started_actions. }
  split; (split; [|intros H]).
  - main_cases f env; cbn [fst snd]; intros Hin; trace_in Hin; try done;
      by destruct (Hstart _ Hin).
  - revert H. main_cases f env; cbn [fst snd]; try done; intros _;
      rewrite !elem_of_app; unfold deferred;
      rewrite !elem_of_cons; tauto.
  - main_cases f env; cbn [fst snd]; intros Hin; trace_in Hin; try done;
      try (by destruct (Hstart _ Hin)).
    all: by split.
  - destruct H as [H Hsome]. revert H Hsome.
    main_cases f env; cbn [fst snd]; try done; intros _;
      try (by intros [? [=]]); intros _;
      rewrite !elem_of_app; unfold deferred;
      rewrite !elem_of_cons; tauto.
Qed.
